(** * Finite differencing (solutions/01-finite-differencing.ipynb)

    A shallow embedding of the three differencing functions of the
    notebook, [backward_differencing], [forward_differencing] and
    [central_differencing], of the cell that sweeps them over a list of
    spacings, and of the convergence formulas the notebook derives,
    together with the properties the specification states about them.

    The Python functions are duck-typed: they work on whatever number
    type the caller passes and on whatever callable [f] the caller passes.
    The embedding is therefore generic in
    - the number type (class [Number]): exact real arithmetic, in which
      the formulas are stated, and IEEE binary64 as Python's [float],
      whose division raises [ZeroDivisionError] on a zero divisor, and as
      numpy's scalar, whose division never raises;
    - the callable [f], a computation that may read and change the state
      of the world and may raise. *)

From Stdlib Require Import Reals Lra List Bool Factorial.
From Stdlib Require Import Floats.
Import ListNotations.

Set Implicit Arguments.

(** ** Outcomes of a Python call *)

(** The exceptions the modelled code can meet: the one raised by [/],
    the one raised by a logarithm outside its domain (Python's
    [ValueError: math domain error]), and whatever the supplied callable
    raises (payload [E]). *)
Inductive exn (E : Type) : Type :=
| ZeroDivisionError : exn E
| MathDomainError : exn E
| Raised : E -> exn E.

Arguments ZeroDivisionError {E}.
Arguments MathDomainError {E}.
Arguments Raised {E} e.

Inductive outcome (E A : Type) : Type :=
| Return : A -> outcome E A
| Raise : exn E -> outcome E A.

Arguments Return {E A} a.
Arguments Raise {E A} e.

(** A computation runs in a world [W] (everything the callable may touch),
    and yields an outcome and the world it leaves behind. An exception
    keeps the changes made before it was raised. *)
Definition Py (W E A : Type) : Type := W -> outcome E A * W.

Definition ret {W E A} (a : A) : Py W E A := fun w => (Return a, w).

Definition bind {W E A B} (m : Py W E A) (k : A -> Py W E B) : Py W E B :=
  fun w =>
    match m w with
    | (Return a, w') => k a w'
    | (Raise e, w') => (Raise e, w')
    end.

Definition lift {W E A} (o : outcome E A) : Py W E A := fun w => (o, w).

Declare Scope py_scope.
Delimit Scope py_scope with py.
Notation "x <- m ;; k" := (bind m (fun x => k))
  (at level 100, m at next level, right associativity) : py_scope.

(** The value of a run and the world after it. *)
Definition value {W E A} (r : outcome E A * W) : outcome E A := fst r.
Definition world {W E A} (r : outcome E A * W) : W := snd r.

(** ** Number types *)

(** What the three functions ask of their numbers: [-], [+], [*], [**2],
    [/] and the literal [2.0]. [traps d] tells whether [_ / d] raises
    [ZeroDivisionError]; otherwise the quotient is [quot _ d]. *)
Class Number (T : Type) : Type := {
  two : T;
  add : T -> T -> T;
  sub : T -> T -> T;
  mul : T -> T -> T;
  sqr : T -> T;
  quot : T -> T -> T;
  traps : T -> bool
}.

Definition truediv {T} `{Number T} {E} (a b : T) : outcome E T :=
  if traps b then Raise ZeroDivisionError else Return (quot a b).

(** Exact real arithmetic, the idealisation in which the formulas are
    stated: nothing is rounded, no square underflows or overflows, and
    division raises on a zero divisor as Python's does. Python's own
    [float] is [Binary64 _ true] below. *)
Definition Rtraps (d : R) : bool := if Req_dec_T d 0 then true else false.

#[export] Instance RNumber : Number R := {
  two := 2%R;
  add := Rplus;
  sub := Rminus;
  mul := Rmult;
  sqr := fun d => (d ^ 2)%R;
  quot := Rdiv;
  traps := Rtraps
}.

(** numpy's [float64] scalars: IEEE binary64, round to nearest even; a zero
    divisor gives an infinity or a NaN (and a warning), not an exception.
    [d ** 2] is taken as the rounded product [d * d]; the library's [pow]
    can differ from it in the last bit, but not where the product is zero,
    which is all that is used of it. *)
#[export] Instance Float64 : Number float := {
  two := 2%float;
  add := PrimFloat.add;
  sub := PrimFloat.sub;
  mul := PrimFloat.mul;
  sqr := fun d => PrimFloat.mul d d;
  quot := PrimFloat.div;
  traps := fun _ => false
}.

(** Binary64 numbers with the power function of the platform left open:
    [power2 d] is the value of [d ** 2], and [trapping] tells Python's
    [float], whose division raises on a zero divisor, from numpy's scalar,
    whose division does not. Where [d ** 2] overflows Python raises
    [OverflowError]; that exception is not modelled, and what is proved of
    Python's floats assumes [power2 d] finite. *)
Definition Binary64 (power2 : float -> float) (trapping : bool)
  : Number float := {|
  two := 2%float;
  add := PrimFloat.add;
  sub := PrimFloat.sub;
  mul := PrimFloat.mul;
  sqr := power2;
  quot := PrimFloat.div;
  traps := fun d => trapping && (d =? 0)%float
|}.

(** ** The differencing functions *)

Section Differencing.

Context {T : Type} `{Number T} {W E : Type}.

Local Open Scope py_scope.

(** [def backward_differencing(f, x_i, dx)] *)
Definition backward_differencing (f : T -> Py W E T) (x_i dx : T) : Py W E T :=
  f_i <- f x_i ;;
  f_i_minus_1 <- f (sub x_i dx) ;;
  lift (truediv (sub f_i f_i_minus_1) dx).

(** [def forward_differencing(f, x_i, dx)] *)
Definition forward_differencing (f : T -> Py W E T) (x_i dx : T) : Py W E T :=
  f_i <- f x_i ;;
  f_i_plus_1 <- f (add x_i dx) ;;
  lift (truediv (sub f_i_plus_1 f_i) dx).

(** [def central_differencing(f, x_i, dx)] *)
Definition central_differencing (f : T -> Py W E T) (x_i dx : T)
  : Py W E (T * T) :=
  f_i <- f x_i ;;
  f_i_minus_1 <- f (sub x_i dx) ;;
  f_i_plus_1 <- f (add x_i dx) ;;
  first_derivative <-
    lift (truediv (sub f_i_plus_1 f_i_minus_1) (mul two dx)) ;;
  second_derivative <-
    lift (truediv (add (sub f_i_minus_1 (mul two f_i)) f_i_plus_1) (sqr dx)) ;;
  ret (first_derivative, second_derivative).

(** A mathematical function used as the callable: it returns its value,
    raises nothing and leaves the world alone. *)
Definition pure_fn (g : T -> T) : T -> Py W E T := fun x => ret (g x).

End Differencing.

(** ** Stencils and evaluation of the callable *)

Section Stencils.

Context {T : Type} `{Number T} {W E : Type}.

Local Open Scope py_scope.

(** The points at which each function calls [f], in the order of the
    calls in the source. *)
Definition backward_stencil (x_i dx : T) : list T := [x_i; sub x_i dx].
Definition forward_stencil (x_i dx : T) : list T := [x_i; add x_i dx].
Definition central_stencil (x_i dx : T) : list T :=
  [x_i; sub x_i dx; add x_i dx].

(** Calling [f] at the points of a list, one after the other: the values,
    or the first exception, with the world as that call left it. *)
Fixpoint evaluate (f : T -> Py W E T) (pts : list T) : Py W E (list T) :=
  match pts with
  | [] => ret []
  | p :: ps => v <- f p ;; vs <- evaluate f ps ;; ret (v :: vs)
  end.

(** A callable is deterministic when its outcome at a point is the same
    in every world: it may keep counters or caches, but they do not change
    what it returns or raises. *)
Definition deterministic (f : T -> Py W E T) : Prop :=
  forall x w1 w2, value (f x w1) = value (f x w2).

(** A callable that may raise but does not touch the world. *)
Definition partial_fn (g : T -> outcome E T) : T -> Py W E T :=
  fun x => lift (g x).

End Stencils.

(** ** Non-finite results of binary64 division *)

Definition non_finite (q : float) : bool := is_nan q || is_infinity q.

(** What the specification expects of a call with [dx = 0]: a
    division-by-zero error, or an infinite result. *)
Definition error_or_infinite {E} (r : outcome E float) : bool :=
  match r with
  | Raise ZeroDivisionError => true
  | Raise MathDomainError => false
  | Raise (Raised _) => false
  | Return q => is_infinity q
  end.

(** ** Schemes and estimators the notebook leaves as exercises *)

Section Exercises.

Context {W E : Type}.

Local Open Scope py_scope.
Local Open Scope R_scope.

(** Modelled from the spec: the fourth-order central scheme. The notebook
    defines no function for it; its cell "Higher order" and section 4.1 of
    the specification give the two formulas, which are written here in the
    style of [central_differencing]. *)
Definition central_differencing_4th (f : R -> Py W E R) (x_i dx : R)
  : Py W E (R * R) :=
  f_i <- f x_i ;;
  f_i_minus_1 <- f (x_i - dx) ;;
  f_i_plus_1 <- f (x_i + dx) ;;
  f_i_minus_2 <- f (x_i - 2 * dx) ;;
  f_i_plus_2 <- f (x_i + 2 * dx) ;;
  first_derivative <-
    lift (truediv
            (- f_i_plus_2 + 8 * f_i_plus_1 - 8 * f_i_minus_1 + f_i_minus_2)
            (12 * dx)) ;;
  second_derivative <-
    lift (truediv
            (- f_i_minus_2 + 16 * f_i_minus_1 - 30 * f_i
             + 16 * f_i_plus_1 - f_i_plus_2)
            (12 * dx ^ 2)) ;;
  ret (first_derivative, second_derivative).

(** The logarithm in base two of a positive real. *)
Definition Rlog2 (r : R) : R := ln r / ln 2.

(** The call of the logarithm in base two: zero and the negative numbers
    are outside its domain, where it has no value and the failure is
    reported to the caller. *)
Definition log2 (r : R) : outcome E R :=
  if Rlt_dec 0 r then Return (Rlog2 r) else Raise MathDomainError.

(** Modelled from the spec: the self-convergence mode of the convergence
    estimator. The notebook defines no function for it; its cell "Self
    convergence" and section 4.2 of the specification give the formula,
    and section 7 asks that an undefined result be reported, not replaced.
    [F4], [F2] and [F1] stand for F(4 dx), F(2 dx) and F(dx). *)
Definition self_convergence (F4 F2 F1 : R) : Py W E R :=
  ratio <- lift (truediv (F4 - F2) (F2 - F1)) ;;
  lift (log2 (Rabs ratio)).

End Exercises.

(** ** Sample callables *)

Inductive failure : Type := ValueError.

(** [math.sqrt] on binary64 with a counter of the calls in the world: it
    raises [ValueError] below zero, as the library function does. *)
Definition counted_sqrt : float -> Py nat failure float :=
  fun v calls =>
    if (v <? 0)%float then (Raise (Raised ValueError), S calls)
    else (Return (sqrt v), S calls).

(** A function with the values [1], [2^53] and [2^54] at [-1], [0] and
    [1]. *)
Definition step_values (v : float) : float :=
  if (v <? 0)%float then 1%float
  else if (v =? 0)%float then 9007199254740992%float
  else 18014398509481984%float.

(** A polynomial of degree four, [a4 t^4 + a3 t^3 + a2 t^2 + a1 t + a0]. *)
Definition quartic (a4 a3 a2 a1 a0 : R) : R -> R :=
  fun t => (a4 * t ^ 4 + a3 * t ^ 3 + a2 * t ^ 2 + a1 * t + a0)%R.

(** ** The convergence sweep of the notebook

    The cell that fills the four error arrays, first in exact real
    arithmetic, where the entries are the truncation errors alone:
    [numpy.exp] is [exp], the arrays are the world of the loop, and the
    spacings [dxs] (in the notebook [numpy.logspace(-5, 0, 10)]) are an
    argument. The cell as it runs, on binary64, is [sweep64] below. *)

Inductive notebook_error : Type := IndexError.

Record arrays : Type := {
  bd_errors : list R;
  fd_errors : list R;
  cd1_errors : list R;
  cd2_errors : list R
}.

(** [numpy.zeros_like(a)] *)
Definition zeros_like (a : list R) : list R := map (fun _ => 0%R) a.

(** [a[i] = v] for an index that is not negative: out of range, numpy
    raises [IndexError]. *)
Fixpoint setitem (a : list R) (i : nat) (v : R)
  : outcome notebook_error (list R) :=
  match a, i with
  | [], _ => Raise (Raised IndexError)
  | _ :: rest, O => Return (v :: rest)
  | h :: rest, S j =>
      match setitem rest j v with
      | Return rest' => Return (h :: rest')
      | Raise e => Raise e
      end
  end.

Definition with_bd_errors (a : list R) (w : arrays) : arrays :=
  {| bd_errors := a; fd_errors := fd_errors w;
     cd1_errors := cd1_errors w; cd2_errors := cd2_errors w |}.
Definition with_fd_errors (a : list R) (w : arrays) : arrays :=
  {| bd_errors := bd_errors w; fd_errors := a;
     cd1_errors := cd1_errors w; cd2_errors := cd2_errors w |}.
Definition with_cd1_errors (a : list R) (w : arrays) : arrays :=
  {| bd_errors := bd_errors w; fd_errors := fd_errors w;
     cd1_errors := a; cd2_errors := cd2_errors w |}.
Definition with_cd2_errors (a : list R) (w : arrays) : arrays :=
  {| bd_errors := bd_errors w; fd_errors := fd_errors w;
     cd1_errors := cd1_errors w; cd2_errors := a |}.

(** The statement [name[i] = v] on one of the four arrays. *)
Definition assign (get : arrays -> list R) (set : list R -> arrays -> arrays)
    (i : nat) (v : R) : Py arrays notebook_error unit :=
  fun w =>
    match setitem (get w) i v with
    | Return a => (Return tt, set a w)
    | Raise e => (Raise e, w)
    end.

(** The body of [for i, dx in enumerate(dxs)]. *)
Definition sweep_body (i : nat) (dx : R) : Py arrays notebook_error unit :=
  (bd <- backward_differencing (pure_fn exp) 0%R dx ;;
   s1 <- assign bd_errors with_bd_errors i (Rabs (bd - 1)) ;;
   fd <- forward_differencing (pure_fn exp) 0%R dx ;;
   s2 <- assign fd_errors with_fd_errors i (Rabs (fd - 1)) ;;
   cd <- central_differencing (pure_fn exp) 0%R dx ;;
   s3 <- assign cd1_errors with_cd1_errors i (Rabs (fst cd - 1)) ;;
   assign cd2_errors with_cd2_errors i (Rabs (snd cd - 1)))%py.

Fixpoint sweep_loop (i : nat) (dxs : list R) : Py arrays notebook_error unit :=
  match dxs with
  | [] => ret tt
  | dx :: rest => (s <- sweep_body i dx ;; sweep_loop (S i) rest)%py
  end.

(** The four [numpy.zeros_like(dxs)] and the loop. *)
Definition sweep (dxs : list R) : Py arrays notebook_error unit :=
  fun _ =>
    sweep_loop 0 dxs
      {| bd_errors := zeros_like dxs; fd_errors := zeros_like dxs;
         cd1_errors := zeros_like dxs; cd2_errors := zeros_like dxs |}.

(** The errors the loop stores for one spacing. *)
Definition bd_error (dx : R) : R :=
  Rabs ((exp 0 - exp (0 - dx)) / dx - 1).
Definition fd_error (dx : R) : R :=
  Rabs ((exp (0 + dx) - exp 0) / dx - 1).
Definition cd1_error (dx : R) : R :=
  Rabs ((exp (0 + dx) - exp (0 - dx)) / (2 * dx) - 1).
Definition cd2_error (dx : R) : R :=
  Rabs ((exp (0 - dx) - 2 * exp 0 + exp (0 + dx)) / dx ^ 2 - 1).

(** ** The convergence sweep on numpy scalars

    The same cell in the arithmetic it runs in: binary64 with a division
    that does not raise, and with numpy's [exp] and [pow(_, 2.0)] left open
    as [np_exp] and [power2]. *)

Record arrays64 : Type := {
  bd_errors64 : list float;
  fd_errors64 : list float;
  cd1_errors64 : list float;
  cd2_errors64 : list float
}.

Definition zeros_like64 (a : list float) : list float :=
  map (fun _ => 0%float) a.

Fixpoint setitem64 (a : list float) (i : nat) (v : float)
  : outcome notebook_error (list float) :=
  match a, i with
  | [], _ => Raise (Raised IndexError)
  | _ :: rest, O => Return (v :: rest)
  | h :: rest, S j =>
      match setitem64 rest j v with
      | Return rest' => Return (h :: rest')
      | Raise e => Raise e
      end
  end.

Definition with_bd_errors64 (a : list float) (w : arrays64) : arrays64 :=
  {| bd_errors64 := a; fd_errors64 := fd_errors64 w;
     cd1_errors64 := cd1_errors64 w; cd2_errors64 := cd2_errors64 w |}.
Definition with_fd_errors64 (a : list float) (w : arrays64) : arrays64 :=
  {| bd_errors64 := bd_errors64 w; fd_errors64 := a;
     cd1_errors64 := cd1_errors64 w; cd2_errors64 := cd2_errors64 w |}.
Definition with_cd1_errors64 (a : list float) (w : arrays64) : arrays64 :=
  {| bd_errors64 := bd_errors64 w; fd_errors64 := fd_errors64 w;
     cd1_errors64 := a; cd2_errors64 := cd2_errors64 w |}.
Definition with_cd2_errors64 (a : list float) (w : arrays64) : arrays64 :=
  {| bd_errors64 := bd_errors64 w; fd_errors64 := fd_errors64 w;
     cd1_errors64 := cd1_errors64 w; cd2_errors64 := a |}.

Definition assign64 (get : arrays64 -> list float)
    (set : list float -> arrays64 -> arrays64) (i : nat) (v : float)
  : Py arrays64 notebook_error unit :=
  fun w =>
    match setitem64 (get w) i v with
    | Return a => (Return tt, set a w)
    | Raise e => (Raise e, w)
    end.

Section Sweep64.

Variables np_exp power2 : float -> float.

(** The body of [for i, dx in enumerate(dxs)]. *)
Definition sweep64_body (i : nat) (dx : float)
  : Py arrays64 notebook_error unit :=
  (bd <- @backward_differencing float (Binary64 power2 false) _ _
           (pure_fn np_exp) 0%float dx ;;
   s1 <- assign64 bd_errors64 with_bd_errors64 i (abs (bd - 1))%float ;;
   fd <- @forward_differencing float (Binary64 power2 false) _ _
           (pure_fn np_exp) 0%float dx ;;
   s2 <- assign64 fd_errors64 with_fd_errors64 i (abs (fd - 1))%float ;;
   cd <- @central_differencing float (Binary64 power2 false) _ _
           (pure_fn np_exp) 0%float dx ;;
   s3 <- assign64 cd1_errors64 with_cd1_errors64 i (abs (fst cd - 1))%float ;;
   assign64 cd2_errors64 with_cd2_errors64 i (abs (snd cd - 1))%float)%py.

Fixpoint sweep64_loop (i : nat) (dxs : list float)
  : Py arrays64 notebook_error unit :=
  match dxs with
  | [] => ret tt
  | dx :: rest => (s <- sweep64_body i dx ;; sweep64_loop (S i) rest)%py
  end.

(** The four [numpy.zeros_like(dxs)] and the loop. *)
Definition sweep64 (dxs : list float) : Py arrays64 notebook_error unit :=
  fun _ =>
    sweep64_loop 0 dxs
      {| bd_errors64 := zeros_like64 dxs; fd_errors64 := zeros_like64 dxs;
         cd1_errors64 := zeros_like64 dxs; cd2_errors64 := zeros_like64 dxs |}.

(** The errors the loop stores for one spacing, each operation rounded. *)
Definition bd_error64 (dx : float) : float :=
  abs ((np_exp 0 - np_exp (0 - dx)) / dx - 1).
Definition fd_error64 (dx : float) : float :=
  abs ((np_exp (0 + dx) - np_exp 0) / dx - 1).
Definition cd1_error64 (dx : float) : float :=
  abs ((np_exp (0 + dx) - np_exp (0 - dx)) / (2 * dx) - 1).
Definition cd2_error64 (dx : float) : float :=
  abs ((np_exp (0 - dx) - 2 * np_exp 0 + np_exp (0 + dx)) / power2 dx - 1).

End Sweep64.

(** The Taylor polynomial of [exp] at [0], of degree [n], and what [exp]
    adds to it. *)
Fixpoint taylor (n : nat) (t : R) : R :=
  match n with
  | O => 1%R
  | S m => (taylor m t + / INR (fact (S m)) * t ^ S m)%R
  end.

Definition remainder (n : nat) (t : R) : R := (exp t - taylor n t)%R.

(** * Properties *)

(** ** Division *)

Lemma Rtraps_zero : Rtraps 0 = true.
Proof. unfold Rtraps. destruct (Req_dec_T 0 0) as [_ | n]; [reflexivity | now elim n]. Qed.

Lemma Rtraps_nonzero (d : R) : d <> 0%R -> Rtraps d = false.
Proof. intros Hd. unfold Rtraps. destruct (Req_dec_T d 0) as [e | _]; [now elim Hd | reflexivity]. Qed.

Lemma truediv_R_nonzero (E : Type) (a d : R) :
  d <> 0%R -> @truediv R _ E a d = Return (a / d)%R.
Proof. intros Hd. unfold truediv. cbn. now rewrite Rtraps_nonzero. Qed.

Lemma truediv_R_zero (E : Type) (a : R) :
  @truediv R _ E a 0%R = Raise ZeroDivisionError.
Proof. unfold truediv. cbn. now rewrite Rtraps_zero. Qed.

(** ** The functions on a mathematical function

    With a callable that neither raises nor touches the world, each
    function is its division(s), applied to the sampled values: this holds
    for every number type and every [dx]. *)

Section Unfolding.

Context {T : Type} `{Number T} {W E : Type}.

Lemma backward_differencing_pure (g : T -> T) (x_i dx : T) (w : W) :
  backward_differencing (E := E) (pure_fn g) x_i dx w =
  (truediv (sub (g x_i) (g (sub x_i dx))) dx, w).
Proof. reflexivity. Qed.

Lemma forward_differencing_pure (g : T -> T) (x_i dx : T) (w : W) :
  forward_differencing (E := E) (pure_fn g) x_i dx w =
  (truediv (sub (g (add x_i dx)) (g x_i)) dx, w).
Proof. reflexivity. Qed.

Lemma central_differencing_pure (g : T -> T) (x_i dx : T) (w : W) :
  central_differencing (E := E) (pure_fn g) x_i dx w =
  (match truediv (sub (g (add x_i dx)) (g (sub x_i dx))) (mul two dx) with
   | Return first_derivative =>
       match truediv (add (sub (g (sub x_i dx)) (mul two (g x_i)))
                          (g (add x_i dx))) (sqr dx) with
       | Return second_derivative =>
           Return (first_derivative, second_derivative)
       | Raise e => Raise e
       end
   | Raise e => Raise e
   end, w).
Proof.
  unfold central_differencing, pure_fn, bind, ret, lift.
  destruct (truediv _ (mul two dx)); [ | reflexivity].
  destruct (truediv _ (sqr dx)); reflexivity.
Qed.

End Unfolding.

(** ** Exact real arithmetic *)

Section RealArithmetic.

Context {W E : Type}.

Local Open Scope R_scope.

(** C2: for a real function [f], a real [x] and a spacing [dx > 0],
    [forward_differencing(f, x, dx)] returns [(f(x+dx) - f(x)) / dx]. *)
Theorem forward_differencing_formula (f : R -> R) (x dx : R) (w : W) :
  0 < dx ->
  forward_differencing (E := E) (pure_fn f) x dx w =
  (Return ((f (x + dx) - f x) / dx), w).
Proof.
  intros Hdx. rewrite forward_differencing_pure. cbn [sub add RNumber].
  rewrite truediv_R_nonzero by lra. reflexivity.
Qed.

(** C3: for a real function [f], a real [x] and a spacing [dx > 0],
    [backward_differencing(f, x, dx)] returns [(f(x) - f(x-dx)) / dx]. *)
Theorem backward_differencing_formula (f : R -> R) (x dx : R) (w : W) :
  0 < dx ->
  backward_differencing (E := E) (pure_fn f) x dx w =
  (Return ((f x - f (x - dx)) / dx), w).
Proof.
  intros Hdx. rewrite backward_differencing_pure. cbn [sub add RNumber].
  rewrite truediv_R_nonzero by lra. reflexivity.
Qed.

(** The two divisions of [central_differencing], for a spacing that is
    not zero. *)
Lemma central_differencing_nonzero (f : R -> R) (x dx : R) (w : W) :
  dx <> 0 ->
  central_differencing (E := E) (pure_fn f) x dx w =
  (Return ((f (x + dx) - f (x - dx)) / (2 * dx),
           (f (x - dx) - 2 * f x + f (x + dx)) / dx ^ 2), w).
Proof.
  intros Hdx. rewrite central_differencing_pure.
  cbn [sub add mul two sqr RNumber].
  rewrite !truediv_R_nonzero; [reflexivity | | lra].
  apply pow_nonzero; assumption.
Qed.

(** C1, as stated, fails on Python's floats: with [f(v) = v * v],
    [x = 1.0] and the positive spacing [dx = 2.0 ** -600], [dx ** 2]
    underflows to [0.0] and the second division raises
    [ZeroDivisionError]; no pair is returned. *)
Lemma central_differencing_underflow :
  (0 <? 0x1p-600)%float = true /\
  @central_differencing float (Binary64 (fun d => d * d)%float true)
    unit unit (pure_fn (fun v => v * v)%float) 1%float 0x1p-600%float tt
  = (Raise ZeroDivisionError, tt).
Proof. split; vm_compute; reflexivity. Qed.

(** C1 (amended): [central_differencing(f, x, dx)] returns the pair of
    [(f(x+dx) - f(x-dx)) / (2*dx)] and
    [(f(x-dx) - 2*f(x) + f(x+dx)) / dx^2] for every spacing [dx > 0] in
    exact real arithmetic, and on binary64 floats (Python's or numpy's,
    each operation rounded) for every spacing whose divisors [2.0 * dx]
    and [dx ** 2] are not zero and whose square [dx ** 2] is finite. *)
Theorem central_differencing_in_range
    (f : R -> R) (x dx : R)
    (power2 g : float -> float) (trapping : bool) (y dy : float) (w : W) :
  0 < dx ->
  (2 * dy =? 0)%float = false ->
  (power2 dy =? 0)%float = false ->
  non_finite (power2 dy) = false ->
  central_differencing (E := E) (pure_fn f) x dx w =
  (Return ((f (x + dx) - f (x - dx)) / (2 * dx),
           (f (x - dx) - 2 * f x + f (x + dx)) / dx ^ 2), w) /\
  @central_differencing float (Binary64 power2 trapping) W E
    (pure_fn g) y dy w =
  (Return ((g (y + dy) - g (y - dy)) / (2 * dy),
           (g (y - dy) - 2 * g y + g (y + dy)) / power2 dy)%float, w).
Proof.
  intros Hdx Htwo Hsq _. split.
  - apply central_differencing_nonzero. lra.
  - rewrite central_differencing_pure. unfold truediv.
    cbn [traps two mul sqr sub add quot Binary64].
    rewrite Htwo, Hsq, !andb_false_r. reflexivity.
Qed.

End RealArithmetic.

Section RealIdentities.

Context {W E : Type}.

Local Open Scope R_scope.

(** C9: for a real function [f], a real [x] and a spacing [dx <> 0],
    [central_differencing(f, x, -dx)] returns the same pair as
    [central_differencing(f, x, dx)]: both estimates are unchanged when the
    spacing is negated (and both calls do return a pair). *)
Theorem central_differencing_negated_spacing (f : R -> R) (x dx : R) (w : W) :
  dx <> 0 ->
  central_differencing (E := E) (pure_fn f) x (- dx) w =
  central_differencing (E := E) (pure_fn f) x dx w /\
  exists estimates,
    central_differencing (E := E) (pure_fn f) x dx w = (Return estimates, w).
Proof.
  intros Hdx. split.
  - rewrite !central_differencing_nonzero by lra.
    replace (x + - dx) with (x - dx) by ring.
    replace (x - - dx) with (x + dx) by ring.
    do 2 f_equal. f_equal; field; assumption.
  - eexists. apply central_differencing_nonzero. assumption.
Qed.

(** C10: for a real function [f], a real [x] and a spacing [dx <> 0],
    [forward_differencing(f, x, dx)] equals
    [backward_differencing(f, x + dx, dx)] (and both return a value). *)
Theorem forward_is_shifted_backward (f : R -> R) (x dx : R) (w : W) :
  dx <> 0 ->
  forward_differencing (E := E) (pure_fn f) x dx w =
  backward_differencing (E := E) (pure_fn f) (x + dx) dx w /\
  forward_differencing (E := E) (pure_fn f) x dx w =
  (Return ((f (x + dx) - f x) / dx), w).
Proof.
  intros Hdx.
  rewrite forward_differencing_pure, backward_differencing_pure.
  cbn [sub add RNumber].
  replace (x + dx - dx) with x by ring.
  rewrite truediv_R_nonzero by assumption. split; reflexivity.
Qed.

End RealIdentities.

(** ** Failures of the callable *)

Section Failures.

Context {T : Type} `{Number T} {W E : Type}.

(** An exception that [evaluate] reports was raised by [f] at one of the
    points. *)
Lemma evaluate_raise_in (f : T -> Py W E T) (pts : list T) :
  forall (w w' : W) (e : exn E),
    evaluate f pts w = (Raise e, w') ->
    exists p w0, In p pts /\ f p w0 = (Raise e, w').
Proof.
  induction pts as [| p ps IH]; intros w w' e Hev; cbn in Hev.
  - discriminate.
  - unfold bind in Hev at 1. destruct (f p w) as [[v | e0] w1] eqn:Hf.
    + unfold bind in Hev at 1.
      destruct (evaluate f ps w1) as [[vs | e1] w2] eqn:Hps.
      * discriminate.
      * injection Hev as -> ->.
        destruct (IH _ _ _ Hps) as (q & w0 & Hin & Hq).
        exists q, w0. split; [right; assumption | assumption].
    + injection Hev as -> ->. exists p, w. split; [left; reflexivity | assumption].
Qed.

(** When [f] does not touch the world and raises at one of the points,
    [evaluate] raises: the exception of the first such point. *)
Lemma evaluate_partial_raises (g : T -> outcome E T) (pts : list T) (w : W) :
  (exists p e, In p pts /\ g p = Raise e) ->
  exists p e, In p pts /\ g p = Raise e /\
              evaluate (partial_fn g) pts w = (Raise e, w).
Proof.
  induction pts as [| p ps IH]; intros (q & e & Hin & Hq).
  - destruct Hin.
  - cbn [evaluate]. unfold bind at 1, partial_fn at 1, lift.
    destruct (g p) as [v | e0] eqn:Hp.
    + destruct Hin as [-> | Hin]; [congruence | ].
      destruct IH as (p' & e' & Hin' & Hp' & Hev); [now exists q, e | ].
      exists p', e'. split; [right; assumption | split; [assumption | ]].
      unfold bind at 1. fold (partial_fn (W := W) g). now rewrite Hev.
    + exists p, e0. split; [left; reflexivity | split; [assumption | reflexivity]].
Qed.

(** C7: when calling [f] at the stencil points, in order, ends in an
    exception, the function ends in that same exception, in the world that
    the failing call left: nothing is caught, [f] is not called again and
    no value is returned. *)
Theorem stencil_failure_propagates
    (f : T -> Py W E T) (x_i dx : T) (w w' : W) (e : exn E) :
  (evaluate f (backward_stencil x_i dx) w = (Raise e, w') ->
   backward_differencing f x_i dx w = (Raise e, w')) /\
  (evaluate f (forward_stencil x_i dx) w = (Raise e, w') ->
   forward_differencing f x_i dx w = (Raise e, w')) /\
  (evaluate f (central_stencil x_i dx) w = (Raise e, w') ->
   central_differencing f x_i dx w = (Raise e, w')).
Proof.
  unfold backward_stencil, forward_stencil, central_stencil,
    backward_differencing, forward_differencing, central_differencing.
  cbn [evaluate]. unfold bind, ret.
  repeat split; intros Hev;
    repeat match goal with
      | Hev : context [f ?p ?u] |- _ =>
          destruct (f p u) as [[? | ?] ?]; cbn in Hev |- *
      end;
    first [discriminate Hev | injection Hev as -> ->; reflexivity].
Qed.

End Failures.

(** ** Determinism *)

Section Determinism.

Context {T : Type} `{Number T} {W E : Type}.

(** Two runs that agree on the outcome of their first step, and whose
    continuations agree whatever the worlds, agree on their outcome. *)
Lemma value_bind (A B : Type) (m1 m2 : Py W E A) (k1 k2 : A -> Py W E B)
    (w1 w2 : W) :
  value (m1 w1) = value (m2 w2) ->
  (forall a u1 u2, value (k1 a u1) = value (k2 a u2)) ->
  value (bind m1 k1 w1) = value (bind m2 k2 w2).
Proof.
  unfold bind, value. intros Hm Hk.
  destruct (m1 w1) as [[a1 | e1] u1], (m2 w2) as [[a2 | e2] u2];
    cbn in Hm |- *; try discriminate Hm.
  - injection Hm as ->. apply Hk.
  - injection Hm as ->. reflexivity.
Qed.

Lemma value_lift (A : Type) (o : outcome E A) (w1 w2 : W) :
  value (lift o w1) = value (lift o w2).
Proof. reflexivity. Qed.

(** C8: for a deterministic [f], each of the three functions gives the
    same outcome (the same value, bit for bit, or the same exception) for
    the same [f], [x_i] and [dx], whatever the world it is called in, so
    also when it is called a second time: the functions keep no state of
    their own. *)
Theorem differencing_deterministic (f : T -> Py W E T) (x_i dx : T) (w1 w2 : W) :
  deterministic f ->
  value (backward_differencing f x_i dx w1) =
  value (backward_differencing f x_i dx w2) /\
  value (forward_differencing f x_i dx w1) =
  value (forward_differencing f x_i dx w2) /\
  value (central_differencing f x_i dx w1) =
  value (central_differencing f x_i dx w2).
Proof.
  intros Hdet.
  unfold backward_differencing, forward_differencing, central_differencing.
  repeat split;
    repeat (apply value_bind; [first [apply Hdet | apply value_lift] | intros]);
    reflexivity.
Qed.

(** The functions change the world only through the calls of [f]. *)
Lemma differencing_keeps_world (f : T -> Py W E T) (x_i dx : T) (w : W) :
  (forall p u, world (f p u) = u) ->
  world (backward_differencing f x_i dx w) = w /\
  world (forward_differencing f x_i dx w) = w /\
  world (central_differencing f x_i dx w) = w.
Proof.
  intros Hf.
  unfold backward_differencing, forward_differencing, central_differencing,
    bind, lift, ret, world.
  repeat split;
    repeat match goal with
      | |- context [f ?p ?u] =>
          let Hp := fresh in
          pose proof (Hf p u) as Hp; unfold world in Hp;
          destruct (f p u) as [[? | ?] ?]; cbn in Hp |- *; subst
      end;
    repeat match goal with
      | |- context [truediv ?a ?b] => destruct (truediv (E := E) a b); cbn
      end;
    reflexivity.
Qed.

End Determinism.

(** ** A zero spacing *)

(** The binary64 zeros. *)
Lemma float_zero_cases (d : float) :
  (d =? 0)%float = true -> d = zero \/ d = neg_zero.
Proof.
  rewrite eqb_spec. intros Hd.
  rewrite <- (SF2Prim_Prim2SF d).
  destruct (Prim2SF d) as [s | s | | s m e]; cbn in Hd.
  - destruct s; [right | left]; reflexivity.
  - destruct s; discriminate Hd.
  - discriminate Hd.
  - destruct s; discriminate Hd.
Qed.

(** Dividing by a binary64 zero gives an infinity or a NaN. *)
Lemma quot_by_zero_non_finite (a d : float) :
  (d =? 0)%float = true -> non_finite (a / d)%float = true.
Proof.
  intros Hd. rewrite <- (SF2Prim_Prim2SF (a / d)%float), div_spec.
  destruct (float_zero_cases Hd) as [-> | ->];
    destruct (Prim2SF a) as [s | s | | s m e]; try destruct s; reflexivity.
Qed.

Lemma mul_two_zero (d : float) :
  (d =? 0)%float = true -> (2 * d =? 0)%float = true.
Proof. intros Hd. destruct (float_zero_cases Hd) as [-> | ->]; reflexivity. Qed.

Lemma sqr_zero (d : float) :
  (d =? 0)%float = true -> (d * d =? 0)%float = true.
Proof. intros Hd. destruct (float_zero_cases Hd) as [-> | ->]; reflexivity. Qed.

(** C6, as stated, fails on numpy scalars: with [f(v) = v] and
    [x = dx = numpy.float64(0.0)], the three functions raise nothing and
    return a value that is not infinite: the quotient [0.0 / 0.0] is a
    NaN. *)
Lemma zero_spacing_not_infinite :
  error_or_infinite
    (value (backward_differencing (W := unit) (E := unit)
              (pure_fn (fun v => v)) 0%float 0%float tt)) = false /\
  error_or_infinite
    (value (forward_differencing (W := unit) (E := unit)
              (pure_fn (fun v => v)) 0%float 0%float tt)) = false /\
  value (central_differencing (W := unit) (E := unit)
           (pure_fn (fun v => v)) 0%float 0%float tt) = Return (nan, nan).
Proof. repeat split; vm_compute; reflexivity. Qed.

(** C6 (amended): with a zero spacing the division is carried out as for
    any other spacing and its outcome is the outcome of the call. With
    Python's [float] division the three functions raise
    [ZeroDivisionError]; on numpy scalars they return the binary64
    quotients by zero, each an infinity or a NaN. No other value is put in
    their place. *)
Theorem zero_spacing_unguarded
    (W E : Type) (f : R -> R) (x : R) (g : float -> float) (y dy : float)
    (w : W) :
  (dy =? 0)%float = true ->
  (backward_differencing (E := E) (pure_fn f) x 0%R w
   = (Raise ZeroDivisionError, w) /\
   forward_differencing (E := E) (pure_fn f) x 0%R w
   = (Raise ZeroDivisionError, w) /\
   central_differencing (E := E) (pure_fn f) x 0%R w
   = (Raise ZeroDivisionError, w)) /\
  (exists q,
      backward_differencing (E := E) (pure_fn g) y dy w = (Return q, w) /\
      q = ((g y - g (y - dy)) / dy)%float /\ non_finite q = true) /\
  (exists q,
      forward_differencing (E := E) (pure_fn g) y dy w = (Return q, w) /\
      q = ((g (y + dy) - g y) / dy)%float /\ non_finite q = true) /\
  (exists q1 q2,
      central_differencing (E := E) (pure_fn g) y dy w
      = (Return (q1, q2), w) /\
      q1 = ((g (y + dy) - g (y - dy)) / (2 * dy))%float /\
      q2 = ((g (y - dy) - 2 * g y + g (y + dy)) / (dy * dy))%float /\
      non_finite q1 = true /\ non_finite q2 = true).
Proof.
  intros Hdy. repeat split.
  - rewrite backward_differencing_pure, truediv_R_zero. reflexivity.
  - rewrite forward_differencing_pure, truediv_R_zero. reflexivity.
  - rewrite central_differencing_pure. cbn [mul two RNumber].
    replace (2 * 0)%R with 0%R by ring. rewrite truediv_R_zero. reflexivity.
  - eexists. repeat split. apply quot_by_zero_non_finite, Hdy.
  - eexists. repeat split. apply quot_by_zero_non_finite, Hdy.
  - do 2 eexists. repeat split.
    + apply quot_by_zero_non_finite, mul_two_zero, Hdy.
    + apply quot_by_zero_non_finite, sqr_zero, Hdy.
Qed.

(** On binary64, subtracting [0.0] changes nothing. *)
Lemma float_sub_zero (y : float) : (y - 0)%float = y.
Proof.
  apply Prim2SF_inj. rewrite sub_spec.
  destruct (Prim2SF y) as [s | s | | s m e]; try destruct s; reflexivity.
Qed.

(** On binary64, a finite value minus itself is [0.0]. *)
Lemma float_sub_diag (a : float) : non_finite a = false -> (a - a)%float = zero.
Proof.
  unfold non_finite, is_nan, is_infinity. rewrite !eqb_spec, abs_spec.
  intros Hfin. apply Prim2SF_inj. rewrite sub_spec.
  destruct (Prim2SF a) as [s | s | | s m e].
  - destruct s; reflexivity.
  - destruct s; discriminate Hfin.
  - discriminate Hfin.
  - unfold SF64sub, SFsub. rewrite BinInt.Z.sub_diag. reflexivity.
Qed.

(** On numpy scalars the backward difference with spacing [0.0] is a NaN
    wherever [g] is finite: the numerator [g(y) - g(y - 0.0)] is [0.0]. It
    is infinite only if [g] treats the two zeros differently. *)
Lemma backward_zero_spacing_nan (W E : Type) (g : float -> float) (y : float)
    (w : W) :
  non_finite (g y) = false ->
  backward_differencing (E := E) (pure_fn g) y 0%float w = (Return nan, w).
Proof.
  intros Hfin. rewrite backward_differencing_pure. cbn [sub Float64].
  rewrite float_sub_zero, (float_sub_diag (g y) Hfin). reflexivity.
Qed.

(** ** The identities on binary64

    The two identities of the section on real arithmetic rest on
    [(x + dx) - dx = x] and on the associativity of [+]; neither holds for
    binary64, and the identities are not identities of the rounded
    results. *)

Remark binary64_shift_is_rounded :
  forward_differencing (W := unit) (E := unit) (pure_fn (fun v => v))
    9007199254740992%float 1%float tt = (Return 0%float, tt) /\
  backward_differencing (W := unit) (E := unit) (pure_fn (fun v => v))
    (9007199254740992 + 1)%float 1%float tt = (Return 1%float, tt).
Proof. split; vm_compute; reflexivity. Qed.

Remark binary64_sum_is_rounded :
  central_differencing (W := unit) (E := unit) (pure_fn step_values)
    0%float 1%float tt = (Return (9007199254740992%float, 0%float), tt) /\
  central_differencing (W := unit) (E := unit) (pure_fn step_values)
    0%float (-1)%float tt = (Return (9007199254740992%float, 1%float), tt).
Proof. split; vm_compute; reflexivity. Qed.

(** ** The exercises: fourth order and self convergence *)

Section ExerciseProperties.

Context {W E : Type}.

Local Open Scope R_scope.

(** The two divisions of the fourth-order scheme, for a spacing that is
    not zero. *)
Lemma central_differencing_4th_nonzero (f : R -> R) (x dx : R) (w : W) :
  dx <> 0 ->
  central_differencing_4th (E := E) (pure_fn f) x dx w =
  (Return
     ((- f (x + 2 * dx) + 8 * f (x + dx) - 8 * f (x - dx) + f (x - 2 * dx))
      / (12 * dx),
      (- f (x - 2 * dx) + 16 * f (x - dx) - 30 * f x + 16 * f (x + dx)
       - f (x + 2 * dx)) / (12 * dx ^ 2)), w).
Proof.
  intros Hdx. unfold central_differencing_4th, pure_fn, bind, ret, lift.
  assert (Hsq : 12 * dx ^ 2 <> 0).
  { pose proof (pow_nonzero dx 2 Hdx). lra. }
  rewrite !truediv_R_nonzero by (assumption || lra). reflexivity.
Qed.


(** The fourth-order scheme is exact on polynomials of degree four: it
    returns their first and second derivatives. *)
Lemma central_differencing_4th_exact (a4 a3 a2 a1 a0 x dx : R) (w : W) :
  dx <> 0 ->
  central_differencing_4th (E := E) (pure_fn (quartic a4 a3 a2 a1 a0)) x dx w =
  (Return (4 * a4 * x ^ 3 + 3 * a3 * x ^ 2 + 2 * a2 * x + a1,
           12 * a4 * x ^ 2 + 6 * a3 * x + 2 * a2), w).
Proof.
  intros Hdx. rewrite central_differencing_4th_nonzero by assumption.
  unfold quartic. do 2 f_equal. f_equal; field; assumption.
Qed.

(** The second-order scheme of the notebook is exact on polynomials of
    degree two. *)
Lemma central_differencing_exact (a2 a1 a0 x dx : R) (w : W) :
  dx <> 0 ->
  central_differencing (E := E) (pure_fn (quartic 0 0 a2 a1 a0)) x dx w =
  (Return (2 * a2 * x + a1, 2 * a2), w).
Proof.
  intros Hdx. rewrite central_differencing_nonzero by assumption.
  unfold quartic. do 2 f_equal. f_equal; field; assumption.
Qed.

Lemma ln_2_pos : 0 < ln 2.
Proof. rewrite <- ln_1. apply ln_increasing; lra. Qed.

(** [Rlog2] inverts the powers of two. *)
Lemma log2_Rpower (p : R) : Rlog2 (Rpower 2 p) = p.
Proof.
  unfold Rlog2, Rpower. rewrite ln_exp. field.
  pose proof ln_2_pos. lra.
Qed.

Lemma Rpower_2_not_1 (p : R) : p <> 0 -> Rpower 2 p <> 1.
Proof.
  intros Hp Heq. apply (f_equal ln) in Heq.
  unfold Rpower in Heq. rewrite ln_exp, ln_1 in Heq.
  pose proof ln_2_pos. nra.
Qed.

Lemma log2_positive (r : R) : 0 < r -> @log2 E r = Return (Rlog2 r).
Proof.
  intros Hr. unfold log2. destruct (Rlt_dec 0 r) as [_ | Hn];
    [reflexivity | now elim Hn].
Qed.

Lemma log2_zero : @log2 E 0 = Raise MathDomainError.
Proof.
  unfold log2. destruct (Rlt_dec 0 0) as [Hlt | _]; [lra | reflexivity].
Qed.

(** The division and the logarithm of the self-convergence mode, for
    differences that are not zero. *)
Lemma self_convergence_nonzero (F4 F2 F1 : R) (w : W) :
  F2 - F1 <> 0 -> F4 - F2 <> 0 ->
  self_convergence (E := E) F4 F2 F1 w =
  (Return (Rlog2 (Rabs ((F4 - F2) / (F2 - F1)))), w).
Proof.
  intros Hden Hnum. unfold self_convergence, bind, ret, lift.
  rewrite truediv_R_nonzero by assumption.
  rewrite log2_positive; [reflexivity | ].
  apply Rabs_pos_lt. unfold Rdiv.
  apply Rmult_integral_contrapositive_currified;
    [assumption | apply Rinv_neq_0_compat; assumption].
Qed.

(** C4 (amended): given the three approximations [F4 = F(4 dx)],
    [F2 = F(2 dx)] and [F1 = F(dx)] with [F2 - F1] not zero and [F4 - F2]
    not zero, the self-convergence mode returns
    [log2 (| (F4 - F2) / (F2 - F1) |)], the logarithm in base two being
    [ln _ / ln 2]. *)
Theorem self_convergence_formula (F4 F2 F1 : R) (w : W) :
  F2 - F1 <> 0 -> F4 - F2 <> 0 ->
  self_convergence (E := E) F4 F2 F1 w =
  (Return (ln (Rabs ((F4 - F2) / (F2 - F1))) / ln 2), w).
Proof.
  intros Hden Hnum. rewrite self_convergence_nonzero by assumption.
  reflexivity.
Qed.

(** The derivation of the notebook: when the approximation carries a
    single power-law error term, [F(h) = F0 + C h^p], the self-convergence
    rate is [p]. *)
Lemma self_convergence_power_law (F0 C p h : R) (w : W) :
  C <> 0 -> p <> 0 -> 0 < h ->
  self_convergence (E := E)
    (F0 + C * Rpower (4 * h) p) (F0 + C * Rpower (2 * h) p)
    (F0 + C * Rpower h p) w = (Return p, w).
Proof.
  intros HC Hp Hh.
  replace (4 * h) with (2 * (2 * h)) by ring.
  rewrite <- !Rpower_mult_distr by lra.
  pose proof (exp_pos (p * ln 2)) as Ha. fold (Rpower 2 p) in Ha.
  pose proof (exp_pos (p * ln h)) as Hb. fold (Rpower h p) in Hb.
  pose proof (Rpower_2_not_1 Hp) as Hne.
  set (a := Rpower 2 p) in *. set (b := Rpower h p) in *.
  assert (Hden : F0 + C * (a * b) - (F0 + C * b) <> 0).
  { replace (F0 + C * (a * b) - (F0 + C * b)) with (C * b * (a - 1)) by ring.
    apply Rmult_integral_contrapositive_currified.
    - apply Rmult_integral_contrapositive_currified; lra.
    - lra. }
  assert (Hnum : F0 + C * (a * (a * b)) - (F0 + C * (a * b)) <> 0).
  { replace (F0 + C * (a * (a * b)) - (F0 + C * (a * b)))
      with (C * b * a * (a - 1)) by ring.
    repeat apply Rmult_integral_contrapositive_currified; lra. }
  rewrite self_convergence_nonzero by assumption.
  replace ((F0 + C * (a * (a * b)) - (F0 + C * (a * b)))
           / (F0 + C * (a * b) - (F0 + C * b))) with a.
  - rewrite Rabs_pos_eq by lra. unfold a.
    rewrite log2_Rpower. reflexivity.
  - replace (F0 + C * (a * b) - (F0 + C * b)) with (C * b * (a - 1)) in * by ring.
    field. repeat split; lra.
Qed.

End ExerciseProperties.

(** C4, as stated, fails where the two coarser approximations are equal:
    with [F4 = F2 = 3] and [F1 = 1] the denominator is not zero, the ratio
    is [0], its logarithm is undefined and no rate is returned. *)
Lemma self_convergence_equal_approximations :
  (3 - 1 <> 0)%R /\
  self_convergence (W := unit) (E := unit) 3%R 3%R 1%R tt
  = (Raise MathDomainError, tt).
Proof.
  split; [lra | ].
  unfold self_convergence, bind, ret, lift.
  rewrite truediv_R_nonzero by lra.
  replace ((3 - 3) / (3 - 1))%R with 0%R by field.
  rewrite Rabs_R0, log2_zero. reflexivity.
Qed.

(** * Further properties of the three functions *)

(** ** The calls of the callable *)

Section Calls.

Context {T : Type} `{Number T} {W E : Type}.


End Calls.

(** ** Relations between the three functions, over the reals *)

Section RealRelations.

Context {W E : Type}.

Local Open Scope R_scope.

Lemma backward_differencing_nonzero (f : R -> R) (x dx : R) (w : W) :
  dx <> 0 ->
  backward_differencing (E := E) (pure_fn f) x dx w =
  (Return ((f x - f (x - dx)) / dx), w).
Proof.
  intros Hdx. rewrite backward_differencing_pure. cbn [sub add RNumber].
  rewrite truediv_R_nonzero by assumption. reflexivity.
Qed.

Lemma forward_differencing_nonzero (f : R -> R) (x dx : R) (w : W) :
  dx <> 0 ->
  forward_differencing (E := E) (pure_fn f) x dx w =
  (Return ((f (x + dx) - f x) / dx), w).
Proof.
  intros Hdx. rewrite forward_differencing_pure. cbn [sub add RNumber].
  rewrite truediv_R_nonzero by assumption. reflexivity.
Qed.

(** A function that returns was not given a zero spacing. *)
Lemma forward_returns_nonzero (f : R -> R) (x dx v : R) (w : W) :
  forward_differencing (E := E) (pure_fn f) x dx w = (Return v, w) -> dx <> 0.
Proof.
  intros Hret ->. rewrite forward_differencing_pure, truediv_R_zero in Hret.
  discriminate Hret.
Qed.

(** A negative spacing is accepted, and swaps the two one-sided schemes:
    the backward difference with spacing [dx] is the forward difference
    with spacing [-dx], whatever the sign of [dx]. *)
Theorem backward_is_mirrored_forward (f : R -> R) (x dx : R) (w : W) :
  dx <> 0 ->
  backward_differencing (E := E) (pure_fn f) x dx w =
  forward_differencing (E := E) (pure_fn f) x (- dx) w /\
  backward_differencing (E := E) (pure_fn f) x dx w =
  (Return ((f x - f (x - dx)) / dx), w).
Proof.
  intros Hdx.
  rewrite backward_differencing_nonzero, forward_differencing_nonzero
    by lra.
  replace (x + - dx) with (x - dx) by ring.
  split; [ | reflexivity]. do 2 f_equal. field. assumption.
Qed.

(** The central estimates are made of the one-sided ones: the first is
    their mean, the second their difference over the spacing. *)
Theorem central_from_one_sided (f : R -> R) (x dx fd bd : R) (w : W) :
  forward_differencing (E := E) (pure_fn f) x dx w = (Return fd, w) ->
  backward_differencing (E := E) (pure_fn f) x dx w = (Return bd, w) ->
  central_differencing (E := E) (pure_fn f) x dx w =
  (Return ((fd + bd) / 2, (fd - bd) / dx), w).
Proof.
  intros Hfd Hbd. pose proof (@forward_returns_nonzero f x dx fd w Hfd) as Hdx.
  rewrite forward_differencing_nonzero in Hfd by assumption.
  rewrite backward_differencing_nonzero in Hbd by assumption.
  injection Hfd as <-. injection Hbd as <-.
  rewrite central_differencing_nonzero by assumption.
  do 2 f_equal. f_equal; field; assumption.
Qed.

(** The three functions are linear in the sampled function. *)
Theorem differencing_linear (f g : R -> R) (a b x dx : R) (w : W) :
  dx <> 0 ->
  forall bf bg ff fg cf1 cf2 cg1 cg2,
    backward_differencing (E := E) (pure_fn f) x dx w = (Return bf, w) ->
    backward_differencing (E := E) (pure_fn g) x dx w = (Return bg, w) ->
    forward_differencing (E := E) (pure_fn f) x dx w = (Return ff, w) ->
    forward_differencing (E := E) (pure_fn g) x dx w = (Return fg, w) ->
    central_differencing (E := E) (pure_fn f) x dx w
    = (Return (cf1, cf2), w) ->
    central_differencing (E := E) (pure_fn g) x dx w
    = (Return (cg1, cg2), w) ->
    backward_differencing (E := E) (pure_fn (fun t => a * f t + b * g t))
      x dx w = (Return (a * bf + b * bg), w) /\
    forward_differencing (E := E) (pure_fn (fun t => a * f t + b * g t))
      x dx w = (Return (a * ff + b * fg), w) /\
    central_differencing (E := E) (pure_fn (fun t => a * f t + b * g t))
      x dx w = (Return (a * cf1 + b * cg1, a * cf2 + b * cg2), w).
Proof.
  intros Hdx bf bg ff fg cf1 cf2 cg1 cg2.
  rewrite !backward_differencing_nonzero, !forward_differencing_nonzero,
    !central_differencing_nonzero by assumption.
  intros Hbf Hbg Hff Hfg Hcf Hcg.
  injection Hbf as <-. injection Hbg as <-.
  injection Hff as <-. injection Hfg as <-.
  injection Hcf as <- <-. injection Hcg as <- <-.
  split; [ | split]; do 2 f_equal.
  - field; assumption.
  - field; assumption.
  - f_equal; field; assumption.
Qed.

Lemma forward_differencing_quadratic (a2 a1 a0 x dx : R) (w : W) :
  dx <> 0 ->
  forward_differencing (E := E) (pure_fn (quartic 0 0 a2 a1 a0)) x dx w =
  (Return (2 * a2 * x + a1 + a2 * dx), w).
Proof.
  intros Hdx. rewrite forward_differencing_nonzero by assumption.
  unfold quartic. do 2 f_equal. field. assumption.
Qed.

Lemma backward_differencing_quadratic (a2 a1 a0 x dx : R) (w : W) :
  dx <> 0 ->
  backward_differencing (E := E) (pure_fn (quartic 0 0 a2 a1 a0)) x dx w =
  (Return (2 * a2 * x + a1 - a2 * dx), w).
Proof.
  intros Hdx. rewrite backward_differencing_nonzero by assumption.
  unfold quartic. do 2 f_equal. field. assumption.
Qed.

Lemma central_differencing_quartic (a4 a3 a2 a1 a0 x dx : R) (w : W) :
  dx <> 0 ->
  central_differencing (E := E) (pure_fn (quartic a4 a3 a2 a1 a0)) x dx w =
  (Return (4 * a4 * x ^ 3 + 3 * a3 * x ^ 2 + 2 * a2 * x + a1
           + (4 * a4 * x + a3) * dx ^ 2,
           12 * a4 * x ^ 2 + 6 * a3 * x + 2 * a2 + 2 * a4 * dx ^ 2), w).
Proof.
  intros Hdx. rewrite central_differencing_nonzero by assumption.
  unfold quartic. do 2 f_equal. f_equal; field; assumption.
Qed.

(** On a polynomial of degree two the one-sided schemes are off by
    exactly [a2 * dx], to either side of the derivative: they are exact on
    straight lines and of first order. *)
Theorem one_sided_on_quadratic (a2 a1 a0 x dx : R) (w : W) :
  dx <> 0 ->
  forward_differencing (E := E) (pure_fn (quartic 0 0 a2 a1 a0)) x dx w =
  (Return (2 * a2 * x + a1 + a2 * dx), w) /\
  backward_differencing (E := E) (pure_fn (quartic 0 0 a2 a1 a0)) x dx w =
  (Return (2 * a2 * x + a1 - a2 * dx), w).
Proof.
  intros Hdx. split.
  - apply forward_differencing_quadratic. assumption.
  - apply backward_differencing_quadratic. assumption.
Qed.

(** On a polynomial of degree four the central estimates are off by
    exactly [(4 a4 x + a3) dx^2] and [2 a4 dx^2]: the first is exact up to
    degree two, the second up to degree three, and both are of second
    order. *)
Theorem central_on_quartic (a4 a3 a2 a1 a0 x dx : R) (w : W) :
  dx <> 0 ->
  central_differencing (E := E) (pure_fn (quartic a4 a3 a2 a1 a0)) x dx w =
  (Return (4 * a4 * x ^ 3 + 3 * a3 * x ^ 2 + 2 * a2 * x + a1
           + (4 * a4 * x + a3) * dx ^ 2,
           12 * a4 * x ^ 2 + 6 * a3 * x + 2 * a2 + 2 * a4 * dx ^ 2), w).
Proof. intros Hdx. apply central_differencing_quartic. assumption. Qed.

End RealRelations.

(** ** The estimates and the derivative *)

Section Derivative.

Context {W E : Type}.

Local Open Scope R_scope.

(** The quotient of the mean value theorem. *)
Lemma mean_value_quotient (f f' : R -> R) (a b : R) :
  a < b ->
  (forall c, a <= c <= b -> derivable_pt_lim f c (f' c)) ->
  exists c, a < c < b /\ (f b - f a) / (b - a) = f' c.
Proof.
  intros Hab Hder.
  destruct (MVT_cor2 f f' a b Hab Hder) as (c & Hc & Hin).
  exists c. split; [assumption | ]. rewrite Hc. field. lra.
Qed.

(** For a function differentiable around [x], each first-derivative
    estimate is the derivative at a point of the stencil's interval: the
    forward one on [(x, x+dx)], the backward one on [(x-dx, x)], the
    central one on [(x-dx, x+dx)]. *)
Theorem differencing_mean_value (f f' : R -> R) (x dx : R) (w : W) :
  0 < dx ->
  (forall c, x - dx <= c <= x + dx -> derivable_pt_lim f c (f' c)) ->
  (exists c, x < c < x + dx /\
     forward_differencing (E := E) (pure_fn f) x dx w = (Return (f' c), w)) /\
  (exists c, x - dx < c < x /\
     backward_differencing (E := E) (pure_fn f) x dx w = (Return (f' c), w)) /\
  (exists c second_derivative, x - dx < c < x + dx /\
     central_differencing (E := E) (pure_fn f) x dx w
     = (Return (f' c, second_derivative), w)).
Proof.
  intros Hdx Hder.
  rewrite forward_differencing_nonzero, backward_differencing_nonzero,
    central_differencing_nonzero by lra.
  split; [ | split].
  - destruct (@mean_value_quotient f f' x (x + dx)) as (c & Hc & Hq);
      [lra | intros; apply Hder; lra | ].
    exists c. split; [assumption | ]. rewrite <- Hq. do 2 f_equal. field. lra.
  - destruct (@mean_value_quotient f f' (x - dx) x) as (c & Hc & Hq);
      [lra | intros; apply Hder; lra | ].
    exists c. split; [assumption | ]. rewrite <- Hq. do 2 f_equal. field. lra.
  - destruct (@mean_value_quotient f f' (x - dx) (x + dx)) as (c & Hc & Hq);
      [lra | intros; apply Hder; lra | ].
    exists c. eexists. split; [assumption | ]. rewrite <- Hq.
    do 2 f_equal. f_equal. field. lra.
Qed.

(** The first-derivative estimates are consistent: where [f] has the
    derivative [l], the forward, backward and central estimates are within
    any [eps] of [l] for every spacing that is small enough and not
    zero. *)
Theorem differencing_consistent (f : R -> R) (x l eps : R) (w : W) :
  derivable_pt_lim f x l ->
  0 < eps ->
  exists delta, 0 < delta /\
    forall dx, dx <> 0 -> Rabs dx < delta ->
      exists fd bd cd1 cd2,
        forward_differencing (E := E) (pure_fn f) x dx w = (Return fd, w) /\
        backward_differencing (E := E) (pure_fn f) x dx w = (Return bd, w) /\
        central_differencing (E := E) (pure_fn f) x dx w
        = (Return (cd1, cd2), w) /\
        Rabs (fd - l) < eps /\ Rabs (bd - l) < eps /\ Rabs (cd1 - l) < eps.
Proof.
  intros Hder Heps. destruct (Hder eps Heps) as [delta Hdelta].
  exists delta. split; [apply cond_pos | ].
  intros dx Hdx Hsmall.
  rewrite forward_differencing_nonzero, backward_differencing_nonzero,
    central_differencing_nonzero by assumption.
  do 4 eexists. repeat split; try reflexivity.
  - apply Hdelta; assumption.
  - pose proof (Hdelta (- dx)) as Hm.
    replace ((f x - f (x - dx)) / dx) with ((f (x + - dx) - f x) / - dx).
    + apply Hm; [lra | rewrite Rabs_Ropp; assumption].
    + replace (x + - dx) with (x - dx) by ring. field. assumption.
  - pose proof (Hdelta dx Hdx Hsmall) as Hp.
    pose proof (Hdelta (- dx)) as Hm.
    replace (x + - dx) with (x - dx) in Hm by ring.
    assert (Hm' : Rabs ((f (x - dx) - f x) / - dx - l) < eps)
      by (apply Hm; [lra | rewrite Rabs_Ropp; assumption]).
    replace ((f (x + dx) - f (x - dx)) / (2 * dx) - l)
      with (((f (x + dx) - f x) / dx - l) / 2
            + ((f (x - dx) - f x) / - dx - l) / 2) by (field; assumption).
    eapply Rle_lt_trans; [apply Rabs_triang | ].
    unfold Rdiv at 1 3. rewrite !Rabs_mult, (Rabs_pos_eq (/ 2)) by lra.
    lra.
Qed.

End Derivative.

(** ** The convergence sweep *)

Section SweepProperties.

Local Open Scope R_scope.

Lemma setitem_at_length (done rest : list R) (old v : R) :
  setitem (done ++ old :: rest) (length done) v = Return (done ++ v :: rest).
Proof.
  induction done as [| d done IH]; cbn; [reflexivity | ].
  rewrite IH. reflexivity.
Qed.

(** One turn of the loop, at the index where the zeros begin. *)
Lemma sweep_body_step (dx : R) (db df d1 d2 zb zf z1 z2 : list R) (i : nat) :
  dx <> 0 ->
  length db = i -> length df = i -> length d1 = i -> length d2 = i ->
  sweep_body i dx
    {| bd_errors := db ++ 0 :: zb; fd_errors := df ++ 0 :: zf;
       cd1_errors := d1 ++ 0 :: z1; cd2_errors := d2 ++ 0 :: z2 |} =
  (Return tt,
   {| bd_errors := db ++ bd_error dx :: zb;
      fd_errors := df ++ fd_error dx :: zf;
      cd1_errors := d1 ++ cd1_error dx :: z1;
      cd2_errors := d2 ++ cd2_error dx :: z2 |}).
Proof.
  intros Hdx <- Hf H1 H2. unfold sweep_body, bind.
  rewrite backward_differencing_nonzero by assumption.
  unfold assign at 1. cbn [bd_errors]. rewrite setitem_at_length.
  rewrite forward_differencing_nonzero by assumption.
  unfold assign at 1, with_bd_errors. cbn [fd_errors bd_errors cd1_errors cd2_errors].
  rewrite <- Hf, setitem_at_length.
  rewrite central_differencing_nonzero by assumption.
  unfold assign at 1, with_fd_errors. cbn [fd_errors bd_errors cd1_errors cd2_errors].
  rewrite Hf, <- H1, setitem_at_length.
  unfold assign, with_cd1_errors, with_cd2_errors.
  cbn [fd_errors bd_errors cd1_errors cd2_errors fst snd].
  rewrite H1, <- H2, setitem_at_length. reflexivity.
Qed.

(** The loop over spacings that are not zero, followed by any others:
    it fills the entries of the former and goes on with the latter. *)
Lemma sweep_loop_prefix (pre rest : list R) :
  Forall (fun dx => dx <> 0) pre ->
  forall (db df d1 d2 : list R) (i : nat),
    length db = i -> length df = i -> length d1 = i -> length d2 = i ->
    sweep_loop i (pre ++ rest)
      {| bd_errors := db ++ zeros_like (pre ++ rest);
         fd_errors := df ++ zeros_like (pre ++ rest);
         cd1_errors := d1 ++ zeros_like (pre ++ rest);
         cd2_errors := d2 ++ zeros_like (pre ++ rest) |} =
    sweep_loop (i + length pre) rest
      {| bd_errors := (db ++ map bd_error pre) ++ zeros_like rest;
         fd_errors := (df ++ map fd_error pre) ++ zeros_like rest;
         cd1_errors := (d1 ++ map cd1_error pre) ++ zeros_like rest;
         cd2_errors := (d2 ++ map cd2_error pre) ++ zeros_like rest |}.
Proof.
  induction 1 as [| dx pre Hdx Hpre IH]; intros db df d1 d2 i Hb Hf H1 H2.
  - cbn [app map length]. rewrite Nat.add_0_r, !app_nil_r. reflexivity.
  - cbn [app map length sweep_loop zeros_like]. fold (zeros_like (pre ++ rest)).
    unfold bind at 1. rewrite sweep_body_step by assumption.
    replace (i + S (length pre))%nat with (S i + length pre)%nat
      by (rewrite Nat.add_succ_r; reflexivity).
    pose proof (IH (db ++ [bd_error dx]) (df ++ [fd_error dx])
                  (d1 ++ [cd1_error dx]) (d2 ++ [cd2_error dx]) (S i)) as IH'.
    rewrite <- ?app_assoc in IH'. cbn [app] in IH'.
    rewrite <- ?app_assoc. cbn [app].
    apply IH'; rewrite length_app; cbn; rewrite Nat.add_1_r; congruence.
Qed.

End SweepProperties.

(** ** The exponential around 0 *)

Unset Implicit Arguments.

Section Exponential.

Local Open Scope R_scope.

Lemma taylor_at_0 (n : nat) : taylor n 0 = 1.
Proof.
  induction n as [| n IH]; [reflexivity | ].
  cbn [taylor]. rewrite IH, pow_i by apply Nat.lt_0_succ. ring.
Qed.

Lemma remainder_at_0 (n : nat) : remainder n 0 = 0.
Proof. unfold remainder. rewrite taylor_at_0, exp_0. ring. Qed.

Lemma derivable_pt_lim_term (n : nat) (c : R) :
  derivable_pt_lim (fun t => / INR (fact (S n)) * t ^ S n) c
    (/ INR (fact n) * c ^ n).
Proof.
  replace (/ INR (fact n) * c ^ n)
    with (/ INR (fact (S n)) * (INR (S n) * c ^ pred (S n))).
  - apply (derivable_pt_lim_scal (fun t => t ^ S n)), derivable_pt_lim_pow.
  - cbn [pred]. rewrite fact_simpl, mult_INR. field.
    split; [apply INR_fact_neq_0 | apply not_0_INR; discriminate].
Qed.

Lemma derivable_pt_lim_taylor (n : nat) (c : R) :
  derivable_pt_lim (taylor (S n)) c (taylor n c).
Proof.
  induction n as [| n IH].
  - replace (taylor 0 c) with (0 + / INR (fact 0) * c ^ 0) by (cbn; field).
    apply (derivable_pt_lim_plus (fct_cte 1)
             (fun t => / INR (fact 1) * t ^ 1)).
    + apply derivable_pt_lim_const.
    + apply derivable_pt_lim_term.
  - change (taylor (S n) c)
      with (taylor n c + / INR (fact (S n)) * c ^ S n).
    apply (derivable_pt_lim_plus (taylor (S n))
             (fun t => / INR (fact (S (S n))) * t ^ S (S n))).
    + exact IH.
    + apply derivable_pt_lim_term.
Qed.

Lemma derivable_pt_lim_remainder (n : nat) (c : R) :
  derivable_pt_lim (remainder (S n)) c (remainder n c).
Proof.
  apply (derivable_pt_lim_minus exp (taylor (S n))).
  - apply derivable_pt_lim_exp.
  - apply derivable_pt_lim_taylor.
Qed.

Lemma remainder_mean_value (n : nat) (a b : R) :
  a < b ->
  exists c, a < c < b /\
            remainder (S n) b - remainder (S n) a = remainder n c * (b - a).
Proof.
  intros Hab.
  destruct (MVT_cor2 (remainder (S n)) (remainder n) a b Hab) as (c & Hc & Hin).
  - intros c _. apply derivable_pt_lim_remainder.
  - exists c. split; assumption.
Qed.

Lemma exp_le_3_below_1 (c : R) : c <= 1 -> exp c <= 3.
Proof.
  intros Hc. apply Rle_trans with (exp 1); [ | apply exp_le_3].
  destruct Hc as [Hc | ->]; [left; apply exp_increasing; assumption | right; reflexivity].
Qed.

Lemma remainder_0_eq (t : R) : remainder 0 t = exp t - 1.
Proof. reflexivity. Qed.

(** To the right of 0, up to 1. *)
Lemma remainder_right (n : nat) :
  forall x, 0 <= x <= 1 -> 0 <= remainder n x <= 3 * x ^ S n.
Proof.
  induction n as [| n IH]; intros x [H0 H1].
  - rewrite remainder_0_eq, pow_1.
    pose proof (exp_ineq1_le x). 
    destruct H0 as [H0 | <-]; [ | rewrite exp_0; lra].
    split; [lra | ].
    assert (Hm : exists c, 0 < c < x /\ exp x - exp 0 = exp c * (x - 0)).
    { destruct (MVT_cor2 exp exp 0 x H0) as (c & Hc & Hin).
      - intros c _. apply derivable_pt_lim_exp.
      - exists c. split; assumption. }
    destruct Hm as (c & Hc & Heq). rewrite exp_0 in Heq.
    pose proof (exp_le_3_below_1 c). nra.
  - destruct H0 as [H0 | <-].
    + destruct (remainder_mean_value n 0 x H0) as (c & Hc & Heq).
      rewrite remainder_at_0 in Heq.
      destruct (IH c) as [Hlo Hhi]; [lra | ].
      assert (Hpow : c ^ S n <= x ^ S n) by (apply pow_incr; lra).
      replace (remainder (S n) x) with (remainder n c * x) by lra.
      change (x ^ S (S n)) with (x * x ^ S n).
      split; [nra | ]. nra.
    + rewrite remainder_at_0, pow_i by apply Nat.lt_0_succ. lra.
Qed.

(** To the left of 0. *)
Lemma remainder_left (n : nat) :
  forall x, 0 <= x -> 0 <= (-1) ^ S n * remainder n (- x) <= x ^ S n.
Proof.
  induction n as [| n IH]; intros x H0.
  - rewrite remainder_0_eq, !pow_1.
    pose proof (exp_ineq1_le (- x)).
    assert (exp (- x) <= 1).
    { rewrite <- exp_0. destruct H0 as [H0 | <-].
      - left. apply exp_increasing. lra.
      - rewrite Ropp_0. lra. }
    lra.
  - destruct H0 as [H0 | <-].
    + destruct (remainder_mean_value n (- x) 0) as (c & Hc & Heq); [lra | ].
      rewrite remainder_at_0 in Heq.
      destruct (IH (- c)) as [Hlo Hhi]; [lra | ].
      rewrite Ropp_involutive in Hlo, Hhi.
      assert (Hpow : (- c) ^ S n <= x ^ S n) by (apply pow_incr; lra).
      replace (remainder (S n) (- x)) with (- (remainder n c * x)) by lra.
      change ((-1) ^ S (S n)) with (-1 * (-1) ^ S n).
      change (x ^ S (S n)) with (x * x ^ S n).
      replace (-1 * (-1) ^ S n * - (remainder n c * x))
        with ((-1) ^ S n * remainder n c * x) by ring.
      split; [nra | ]. nra.
    + rewrite Ropp_0, remainder_at_0, pow_i by apply Nat.lt_0_succ. lra.
Qed.

(** [exp] around 0, through its remainders of degree [n]. *)
Lemma exp_right (n : nat) (dx : R) : exp (0 + dx) = taylor n dx + remainder n dx.
Proof. unfold remainder. rewrite Rplus_0_l. ring. Qed.

Lemma exp_left (n : nat) (dx : R) :
  exp (0 - dx) = taylor n (- dx) + remainder n (- dx).
Proof. unfold remainder. replace (0 - dx) with (- dx) by ring. ring. Qed.

Lemma over_spacing (r dx lo hi : R) :
  0 < dx -> lo * dx <= r <= hi * dx -> lo <= r / dx <= hi.
Proof.
  intros Hdx [Hlo Hhi].
  assert (Hinv : 0 < / dx) by (apply Rinv_0_lt_compat; assumption).
  unfold Rdiv. split.
  - replace lo with (lo * dx * / dx) by (field; lra).
    apply Rmult_le_compat_r; lra.
  - replace hi with (hi * dx * / dx) by (field; lra).
    apply Rmult_le_compat_r; lra.
Qed.

Lemma backward_exp_bounds (dx : R) :
  0 < dx -> 1 - dx <= (exp 0 - exp (0 - dx)) / dx <= 1.
Proof.
  intros Hdx. rewrite exp_0, (exp_left 1).
  destruct (remainder_left 1 dx) as [Hlo Hhi]; [lra | ].
  cbn in Hlo, Hhi |- *. apply over_spacing; [assumption | ]. nra.
Qed.

Lemma forward_exp_bounds (dx : R) :
  0 < dx <= 1 -> 1 <= (exp (0 + dx) - exp 0) / dx <= 1 + 3 * dx.
Proof.
  intros Hdx. rewrite exp_0, (exp_right 1).
  destruct (remainder_right 1 dx) as [Hlo Hhi]; [lra | ].
  cbn in Hlo, Hhi |- *. apply over_spacing; [lra | ]. nra.
Qed.

Lemma central_first_exp_bounds (dx : R) :
  0 < dx <= 1 ->
  1 <= (exp (0 + dx) - exp (0 - dx)) / (2 * dx) <= 1 + 2 * dx ^ 2.
Proof.
  intros Hdx. rewrite (exp_right 2), (exp_left 2).
  destruct (remainder_right 2 dx) as [Hlo Hhi]; [lra | ].
  destruct (remainder_left 2 dx) as [Hlo' Hhi']; [lra | ].
  cbn in Hlo, Hhi, Hlo', Hhi' |- *. apply over_spacing; [lra | ].
  assert (0 < dx * dx) by nra. split; nra.
Qed.

Lemma central_second_exp_bounds (dx : R) :
  0 < dx <= 1 ->
  1 <= (exp (0 - dx) - 2 * exp 0 + exp (0 + dx)) / dx ^ 2 <= 1 + 4 * dx ^ 2.
Proof.
  intros Hdx. rewrite exp_0, (exp_right 3), (exp_left 3).
  destruct (remainder_right 3 dx) as [Hlo Hhi]; [lra | ].
  destruct (remainder_left 3 dx) as [Hlo' Hhi']; [lra | ].
  cbn in Hlo, Hhi, Hlo', Hhi' |- *.
  assert (Hsq : 0 < dx * dx) by nra.
  apply over_spacing; [nra | ].
  assert (0 < dx * dx * dx) by nra. split; nra.
Qed.

End Exponential.

(** ** Truncation errors on the exponential

    In exact real arithmetic the estimates of the derivatives of [exp] at
    [0] (all equal to [1]) carry a truncation error alone. On binary64 the
    rounding error is added to it and dominates for small spacings, so the
    bounds of this section are not bounds of a binary64 run. *)

Section NotebookTest.

Context {W E : Type}.

Local Open Scope R_scope.

(** In exact real arithmetic, with [exp] at [0] and a spacing in [(0, 1]],
    the backward difference is below the derivative [1] by at most [dx]
    and the forward difference above it by at most [3 dx]: the truncation
    error of both is of first order. *)
Theorem exp_one_sided_errors (dx : R) (w : W) :
  0 < dx <= 1 ->
  exists bd fd,
    backward_differencing (E := E) (pure_fn exp) 0 dx w = (Return bd, w) /\
    forward_differencing (E := E) (pure_fn exp) 0 dx w = (Return fd, w) /\
    1 - dx <= bd <= 1 /\ 1 <= fd <= 1 + 3 * dx.
Proof.
  intros Hdx.
  rewrite backward_differencing_nonzero, forward_differencing_nonzero by lra.
  do 2 eexists. split; [reflexivity | split; [reflexivity | ]].
  split; [apply backward_exp_bounds; lra | apply forward_exp_bounds; lra].
Qed.

(** In exact real arithmetic, with [exp] at [0] and a spacing in [(0, 1]],
    both central estimates are above [1], by at most [2 dx^2] and
    [4 dx^2]: their truncation error is of second order. *)
Theorem exp_central_errors (dx : R) (w : W) :
  0 < dx <= 1 ->
  exists cd1 cd2,
    central_differencing (E := E) (pure_fn exp) 0 dx w
    = (Return (cd1, cd2), w) /\
    1 <= cd1 <= 1 + 2 * dx ^ 2 /\ 1 <= cd2 <= 1 + 4 * dx ^ 2.
Proof.
  intros Hdx. rewrite central_differencing_nonzero by lra.
  do 2 eexists. split; [reflexivity | ].
  split; [apply central_first_exp_bounds; lra
         | apply central_second_exp_bounds; lra].
Qed.

End NotebookTest.

Section SweepResults.

Local Open Scope R_scope.

(** The loop on fresh arrays, over spacings that are not zero. *)
Lemma sweep_loop_all (dxs : list R) :
  Forall (fun dx => dx <> 0) dxs ->
  sweep_loop 0 dxs
    {| bd_errors := zeros_like dxs; fd_errors := zeros_like dxs;
       cd1_errors := zeros_like dxs; cd2_errors := zeros_like dxs |} =
  (Return tt,
   {| bd_errors := map bd_error dxs; fd_errors := map fd_error dxs;
      cd1_errors := map cd1_error dxs; cd2_errors := map cd2_error dxs |}).
Proof.
  intros Hdxs.
  pose proof (@sweep_loop_prefix dxs [] Hdxs [] [] [] [] 0%nat
                eq_refl eq_refl eq_refl eq_refl) as Hrun.
  rewrite !app_nil_r in Hrun. cbn [app] in Hrun. rewrite Hrun.
  reflexivity.
Qed.

(** In exact real arithmetic, the sweep over spacings that are not zero
    raises nothing and leaves
    four arrays as long as [dxs], whatever they held before: entry [i] of
    each is the absolute error of its scheme at spacing [dxs[i]]. *)
Theorem sweep_fills_arrays (dxs : list R) (w : arrays) :
  Forall (fun dx => dx <> 0) dxs ->
  sweep dxs w =
  (Return tt,
   {| bd_errors := map bd_error dxs; fd_errors := map fd_error dxs;
      cd1_errors := map cd1_error dxs; cd2_errors := map cd2_error dxs |}).
Proof. intros Hdxs. unfold sweep. apply sweep_loop_all. assumption. Qed.

End SweepResults.

(** ** Self convergence of the three functions

    The rate formula of the cell "Self convergence" ([self_convergence]),
    applied to the estimates the functions return at the spacings [4 h],
    [2 h] and [h]. *)

Section SelfConvergence.

Context {W E : Type}.

Local Open Scope R_scope.

Lemma log2_2 : Rlog2 (Rabs 2) = 1.
Proof.
  unfold Rlog2. rewrite Rabs_pos_eq by lra. field.
  pose proof ln_2_pos. lra.
Qed.

Lemma log2_4 : Rlog2 (Rabs 4) = 2.
Proof.
  unfold Rlog2. rewrite Rabs_pos_eq by lra.
  replace 4 with (2 * 2) by ring. rewrite ln_mult by lra. field.
  pose proof ln_2_pos. lra.
Qed.

(** Estimates that keep a first-order error term [k h] double their
    differences from one pair of spacings to the next. *)
Lemma self_convergence_first_order (F0 k h : R) (w : W) :
  k <> 0 -> h <> 0 ->
  self_convergence (E := E) (F0 + k * (4 * h)) (F0 + k * (2 * h))
    (F0 + k * h) w = (Return 1, w).
Proof.
  intros Hk Hh.
  assert (Hkh : k * h <> 0)
    by (apply Rmult_integral_contrapositive_currified; assumption).
  assert (Hden : F0 + k * (2 * h) - (F0 + k * h) <> 0)
    by (intros Hz; apply Hkh; lra).
  assert (Hnum : F0 + k * (4 * h) - (F0 + k * (2 * h)) <> 0)
    by (intros Hz; apply Hkh; lra).
  rewrite self_convergence_nonzero by assumption.
  replace ((F0 + k * (4 * h) - (F0 + k * (2 * h)))
           / (F0 + k * (2 * h) - (F0 + k * h))) with 2
    by (field; assumption).
  rewrite log2_2. reflexivity.
Qed.

(** Estimates that keep a second-order error term [k h^2] quadruple
    them. *)
Lemma self_convergence_second_order (F0 k h : R) (w : W) :
  k <> 0 -> h <> 0 ->
  self_convergence (E := E) (F0 + k * (4 * h) ^ 2) (F0 + k * (2 * h) ^ 2)
    (F0 + k * h ^ 2) w = (Return 2, w).
Proof.
  intros Hk Hh.
  assert (Hkh : k * (h * h) <> 0)
    by (repeat apply Rmult_integral_contrapositive_currified; assumption).
  assert (Hden : F0 + k * (2 * h) ^ 2 - (F0 + k * h ^ 2) <> 0)
    by (intros Hz; apply Hkh; lra).
  assert (Hnum : F0 + k * (4 * h) ^ 2 - (F0 + k * (2 * h) ^ 2) <> 0)
    by (intros Hz; apply Hkh; lra).
  rewrite self_convergence_nonzero by assumption.
  replace ((F0 + k * (4 * h) ^ 2 - (F0 + k * (2 * h) ^ 2))
           / (F0 + k * (2 * h) ^ 2 - (F0 + k * h ^ 2))) with 4
    by (field; intros Hz; apply Hkh; lra).
  rewrite log2_4. reflexivity.
Qed.

(** On a polynomial of degree two that is not a straight line, the
    self-convergence rate measured on the forward and on the backward
    difference is exactly [1]. *)
Theorem one_sided_self_convergence (a2 a1 a0 x h : R) (w : W) :
  a2 <> 0 -> h <> 0 ->
  forall F4 F2 F1 B4 B2 B1,
    forward_differencing (E := E) (pure_fn (quartic 0 0 a2 a1 a0)) x (4 * h) w
    = (Return F4, w) ->
    forward_differencing (E := E) (pure_fn (quartic 0 0 a2 a1 a0)) x (2 * h) w
    = (Return F2, w) ->
    forward_differencing (E := E) (pure_fn (quartic 0 0 a2 a1 a0)) x h w
    = (Return F1, w) ->
    backward_differencing (E := E) (pure_fn (quartic 0 0 a2 a1 a0)) x (4 * h) w
    = (Return B4, w) ->
    backward_differencing (E := E) (pure_fn (quartic 0 0 a2 a1 a0)) x (2 * h) w
    = (Return B2, w) ->
    backward_differencing (E := E) (pure_fn (quartic 0 0 a2 a1 a0)) x h w
    = (Return B1, w) ->
    self_convergence (E := E) F4 F2 F1 w = (Return 1, w) /\
    self_convergence (E := E) B4 B2 B1 w = (Return 1, w).
Proof.
  intros Ha Hh F4 F2 F1 B4 B2 B1.
  rewrite !forward_differencing_quadratic, !backward_differencing_quadratic
    by lra.
  intros HF4 HF2 HF1 HB4 HB2 HB1.
  injection HF4 as <-. injection HF2 as <-. injection HF1 as <-.
  injection HB4 as <-. injection HB2 as <-. injection HB1 as <-.
  split.
  - apply self_convergence_first_order; assumption.
  - pose proof (self_convergence_first_order (2 * a2 * x + a1) (- a2) h w)
      as Hrate.
    replace (2 * a2 * x + a1 - a2 * (4 * h))
      with (2 * a2 * x + a1 + - a2 * (4 * h)) by ring.
    replace (2 * a2 * x + a1 - a2 * (2 * h))
      with (2 * a2 * x + a1 + - a2 * (2 * h)) by ring.
    replace (2 * a2 * x + a1 - a2 * h)
      with (2 * a2 * x + a1 + - a2 * h) by ring.
    apply Hrate; lra.
Qed.

(** On a polynomial of degree four whose second-order error terms are
    not zero, the self-convergence rate measured on either central
    estimate is exactly [2]. *)
Theorem central_self_convergence (a4 a3 a2 a1 a0 x h : R) (w : W) :
  4 * a4 * x + a3 <> 0 -> a4 <> 0 -> h <> 0 ->
  forall F4 F2 F1 S4 S2 S1,
    central_differencing (E := E) (pure_fn (quartic a4 a3 a2 a1 a0))
      x (4 * h) w = (Return (F4, S4), w) ->
    central_differencing (E := E) (pure_fn (quartic a4 a3 a2 a1 a0))
      x (2 * h) w = (Return (F2, S2), w) ->
    central_differencing (E := E) (pure_fn (quartic a4 a3 a2 a1 a0))
      x h w = (Return (F1, S1), w) ->
    self_convergence (E := E) F4 F2 F1 w = (Return 2, w) /\
    self_convergence (E := E) S4 S2 S1 w = (Return 2, w).
Proof.
  intros Hk1 Ha4 Hh F4 F2 F1 S4 S2 S1.
  rewrite !central_differencing_quartic by lra.
  intros H4 H2 H1.
  injection H4 as <- <-. injection H2 as <- <-. injection H1 as <- <-.
  split; apply self_convergence_second_order; lra.
Qed.

End SelfConvergence.

(** ** The second estimate and the second derivative *)

Section SecondDerivative.

Context {W E : Type}.

Local Open Scope R_scope.

Lemma derivable_pt_lim_shift (f : R -> R) (x t l : R) :
  derivable_pt_lim f (x + t) l -> derivable_pt_lim (fun u => f (x + u)) t l.
Proof.
  intros Hf eps Heps. destruct (Hf eps Heps) as [delta Hdelta].
  exists delta. intros h Hh Hsmall.
  replace (x + (t + h)) with (x + t + h) by ring. apply Hdelta; assumption.
Qed.

Lemma derivable_pt_lim_mirror (f : R -> R) (x t l : R) :
  derivable_pt_lim f (x - t) l -> derivable_pt_lim (fun u => f (x - u)) t (- l).
Proof.
  intros Hf eps Heps. destruct (Hf eps Heps) as [delta Hdelta].
  exists delta. intros h Hh Hsmall.
  replace (x - (t + h)) with (x - t + - h) by ring.
  replace ((f (x - t + - h) - f (x - t)) / h - - l)
    with (- ((f (x - t + - h) - f (x - t)) / - h - l)) by (field; assumption).
  rewrite Rabs_Ropp. apply Hdelta; [lra | rewrite Rabs_Ropp; assumption].
Qed.

Lemma derivable_pt_lim_parabola (a K t : R) :
  derivable_pt_lim (fun u => a + K * u ^ 2) t (2 * K * t).
Proof.
  replace (2 * K * t) with (0 + K * (INR 2 * t ^ pred 2)) by (cbn; ring).
  apply (derivable_pt_lim_plus (fct_cte a) (fun u => K * u ^ 2)).
  - apply derivable_pt_lim_const.
  - apply (derivable_pt_lim_scal (fun u => u ^ 2)), derivable_pt_lim_pow.
Qed.

(** The second difference of a twice differentiable function is its second
    derivative at a point of the interval. *)
Lemma second_difference_mean_value (f f' f'' : R -> R) (x dx : R) :
  0 < dx ->
  (forall c, x - dx <= c <= x + dx -> derivable_pt_lim f c (f' c)) ->
  (forall c, x - dx <= c <= x + dx -> derivable_pt_lim f' c (f'' c)) ->
  exists c, x - dx < c < x + dx /\
            (f (x - dx) - 2 * f x + f (x + dx)) / dx ^ 2 = f'' c.
Proof.
  intros Hdx Hf Hf'.
  set (K := (f (x - dx) - 2 * f x + f (x + dx)) / dx ^ 2).
  set (g := fun u => f (x + u) + f (x - u) - (2 * f x + K * u ^ 2)).
  set (g' := fun u => f' (x + u) + - f' (x - u) - 2 * K * u).
  assert (Hg : forall u, 0 <= u <= dx -> derivable_pt_lim g u (g' u)).
  { intros u Hu. unfold g, g'.
    apply (derivable_pt_lim_minus (fun u => f (x + u) + f (x - u))
             (fun u => 2 * f x + K * u ^ 2)).
    - apply (derivable_pt_lim_plus (fun u => f (x + u)) (fun u => f (x - u))).
      + apply derivable_pt_lim_shift, Hf. lra.
      + apply derivable_pt_lim_mirror, Hf. lra.
    - apply derivable_pt_lim_parabola. }
  destruct (MVT_cor2 g g' 0 dx Hdx Hg) as (c & Hc & Hin).
  assert (Hg0 : g 0 = 0).
  { unfold g. replace (x + 0) with x by ring. replace (x - 0) with x by ring.
    ring. }
  assert (Hgdx : g dx = 0).
  { unfold g, K. field. lra. }
  rewrite Hg0, Hgdx in Hc.
  assert (Hzero : g' c = 0) by nra.
  destruct (MVT_cor2 f' f'' (x - c) (x + c)) as (c' & Hc' & Hin'); [lra | | ].
  { intros u Hu. apply Hf'. lra. }
  exists c'. split; [lra | ].
  fold K. unfold g' in Hzero.
  assert (Hk : 2 * c * K = 2 * c * f'' c') by lra.
  apply Rmult_eq_reg_l with (2 * c); [exact Hk | lra].
Qed.

(** For a function twice differentiable around [x], the second estimate
    of [central_differencing] is the second derivative at a point of
    [(x-dx, x+dx)]. *)
Theorem central_second_mean_value (f f' f'' : R -> R) (x dx : R) (w : W) :
  0 < dx ->
  (forall c, x - dx <= c <= x + dx -> derivable_pt_lim f c (f' c)) ->
  (forall c, x - dx <= c <= x + dx -> derivable_pt_lim f' c (f'' c)) ->
  exists c first_derivative, x - dx < c < x + dx /\
    central_differencing (E := E) (pure_fn f) x dx w
    = (Return (first_derivative, f'' c), w).
Proof.
  intros Hdx Hf Hf'.
  destruct (second_difference_mean_value f f' f'' x dx Hdx Hf Hf')
    as (c & Hc & Heq).
  exists c. eexists. split; [assumption | ].
  rewrite central_differencing_nonzero by lra. rewrite Heq. reflexivity.
Qed.

End SecondDerivative.

(** ** Binary64 edge cases on numpy scalars *)

Section Binary64.

Context {W E : Type}.

(** A zero over anything but a zero or a NaN is a zero. *)
Lemma zero_quot (d : float) :
  (d =? 0)%float = false -> is_nan d = false -> (0 / d =? 0)%float = true.
Proof.
  unfold is_nan. rewrite !eqb_spec, div_spec. intros Hd Hnan.
  destruct (Prim2SF d) as [s | s | | s m e]; cbn in Hd, Hnan |- *.
  - destruct s; discriminate Hd.
  - destruct s; reflexivity.
  - discriminate Hnan.
  - destruct s; reflexivity.
Qed.

(** When the spacing is so small against [y] that [y + dy] rounds to [y],
    the forward difference of any [g] finite at [y] is a zero: the
    estimate carries nothing of [g]. *)
Theorem absorbed_spacing_forward_zero (g : float -> float) (y dy : float)
    (w : W) :
  (y + dy)%float = y ->
  non_finite (g y) = false ->
  (dy =? 0)%float = false -> is_nan dy = false ->
  exists q,
    forward_differencing (E := E) (pure_fn g) y dy w = (Return q, w) /\
    (q =? 0)%float = true.
Proof.
  intros Habs Hfin Hdy Hnan. rewrite forward_differencing_pure.
  cbn [add sub Float64]. rewrite Habs, (float_sub_diag (g y) Hfin).
  eexists. split; [reflexivity | ]. apply zero_quot; assumption.
Qed.

(** When the spacing is so small that its square underflows to zero, the
    second estimate of [central_differencing] is an infinity or a NaN
    although the spacing is not zero. *)
Theorem underflowing_spacing_second_estimate (g : float -> float)
    (y dy : float) (w : W) :
  (dy * dy =? 0)%float = true ->
  exists q1 q2,
    central_differencing (E := E) (pure_fn g) y dy w
    = (Return (q1, q2), w) /\
    non_finite q2 = true.
Proof.
  intros Hsq. rewrite central_differencing_pure. do 2 eexists.
  split; [reflexivity | ]. apply quot_by_zero_non_finite. exact Hsq.
Qed.

End Binary64.

(** ** The convergence sweep on numpy scalars *)

Section Sweep64Results.

Variables np_exp power2 : float -> float.

Lemma setitem64_at_length (done rest : list float) (old v : float) :
  setitem64 (done ++ old :: rest) (length done) v
  = Return (done ++ v :: rest).
Proof.
  induction done as [| d done IH]; cbn; [reflexivity | ].
  rewrite IH. reflexivity.
Qed.

(** One turn of the loop, at the index where the zeros begin: whatever the
    spacing, nothing is raised. *)
Lemma sweep64_body_step (dx : float) (db df d1 d2 zb zf z1 z2 : list float)
    (i : nat) :
  length db = i -> length df = i -> length d1 = i -> length d2 = i ->
  sweep64_body np_exp power2 i dx
    {| bd_errors64 := db ++ 0%float :: zb;
       fd_errors64 := df ++ 0%float :: zf;
       cd1_errors64 := d1 ++ 0%float :: z1;
       cd2_errors64 := d2 ++ 0%float :: z2 |} =
  (Return tt,
   {| bd_errors64 := db ++ bd_error64 np_exp dx :: zb;
      fd_errors64 := df ++ fd_error64 np_exp dx :: zf;
      cd1_errors64 := d1 ++ cd1_error64 np_exp dx :: z1;
      cd2_errors64 := d2 ++ cd2_error64 np_exp power2 dx :: z2 |}).
Proof.
  intros <- Hf H1 H2. unfold sweep64_body, bind.
  rewrite backward_differencing_pure. unfold truediv at 1.
  cbn [traps Binary64 andb quot sub add].
  unfold assign64 at 1. cbn [bd_errors64]. rewrite setitem64_at_length.
  rewrite forward_differencing_pure. unfold truediv at 1.
  cbn [traps Binary64 andb quot sub add].
  unfold assign64 at 1, with_bd_errors64.
  cbn [fd_errors64 bd_errors64 cd1_errors64 cd2_errors64].
  rewrite <- Hf, setitem64_at_length.
  rewrite central_differencing_pure. unfold truediv.
  cbn [traps Binary64 andb quot sub add mul two sqr].
  unfold assign64 at 1, with_fd_errors64.
  cbn [fd_errors64 bd_errors64 cd1_errors64 cd2_errors64].
  rewrite Hf, <- H1, setitem64_at_length.
  unfold assign64, with_cd1_errors64, with_cd2_errors64.
  cbn [fd_errors64 bd_errors64 cd1_errors64 cd2_errors64 fst snd].
  rewrite H1, <- H2, setitem64_at_length. reflexivity.
Qed.

Lemma sweep64_loop_from (rest : list float) :
  forall (db df d1 d2 : list float) (i : nat),
    length db = i -> length df = i -> length d1 = i -> length d2 = i ->
    sweep64_loop np_exp power2 i rest
      {| bd_errors64 := db ++ zeros_like64 rest;
         fd_errors64 := df ++ zeros_like64 rest;
         cd1_errors64 := d1 ++ zeros_like64 rest;
         cd2_errors64 := d2 ++ zeros_like64 rest |} =
    (Return tt,
     {| bd_errors64 := db ++ map (bd_error64 np_exp) rest;
        fd_errors64 := df ++ map (fd_error64 np_exp) rest;
        cd1_errors64 := d1 ++ map (cd1_error64 np_exp) rest;
        cd2_errors64 := d2 ++ map (cd2_error64 np_exp power2) rest |}).
Proof.
  induction rest as [| dx rest IH]; intros db df d1 d2 i Hb Hf H1 H2.
  - reflexivity.
  - cbn [map sweep64_loop zeros_like64]. fold (zeros_like64 rest).
    unfold bind at 1. rewrite sweep64_body_step by assumption.
    pose proof (IH (db ++ [bd_error64 np_exp dx])
                  (df ++ [fd_error64 np_exp dx])
                  (d1 ++ [cd1_error64 np_exp dx])
                  (d2 ++ [cd2_error64 np_exp power2 dx]) (S i)) as IH'.
    rewrite <- ?app_assoc in IH'. cbn [app] in IH'.
    apply IH'; rewrite length_app; cbn; rewrite Nat.add_1_r; congruence.
Qed.

(** On numpy scalars the sweep raises nothing, whatever the spacings and
    whatever [exp] and [pow] return, and leaves, whatever the arrays held
    before, four arrays as long as [dxs]: entry [i] of each is the rounded
    absolute error of its scheme at spacing [dxs[i]]. *)
Theorem sweep64_fills_arrays (dxs : list float) (w : arrays64) :
  sweep64 np_exp power2 dxs w =
  (Return tt,
   {| bd_errors64 := map (bd_error64 np_exp) dxs;
      fd_errors64 := map (fd_error64 np_exp) dxs;
      cd1_errors64 := map (cd1_error64 np_exp) dxs;
      cd2_errors64 := map (cd2_error64 np_exp power2) dxs |}).
Proof.
  unfold sweep64.
  apply (sweep64_loop_from dxs [] [] [] [] 0 eq_refl eq_refl eq_refl eq_refl).
Qed.

(** The four errors at a zero spacing, when [exp(0.0)] is [1.0] and the
    square of a zero is a zero. *)
Lemma errors64_at_zero (dx : float) :
  (dx =? 0)%float = true ->
  np_exp 0%float = 1%float ->
  (power2 dx =? 0)%float = true ->
  bd_error64 np_exp dx = nan /\ fd_error64 np_exp dx = nan /\
  cd1_error64 np_exp dx = nan /\ cd2_error64 np_exp power2 dx = nan.
Proof.
  intros Hdx Hexp Hsq.
  unfold bd_error64, fd_error64, cd1_error64, cd2_error64.
  destruct (float_zero_cases Hsq) as [-> | ->];
    destruct (float_zero_cases Hdx) as [-> | ->];
    repeat split;
    repeat match goal with
      | |- context [np_exp ?a] =>
          lazymatch a with
          | 0%float => fail
          | _ => let a' := eval vm_compute in a in change a with a'
          end
      end;
    rewrite Hexp; vm_compute; reflexivity.
Qed.

(** On numpy scalars a zero spacing does not stop the sweep: with
    [exp(0.0) = 1.0] all four arrays get a NaN at its index, and the
    entries before and after it are filled as for any other run. *)
Theorem sweep64_zero_spacing (pre post : list float) (dx : float)
    (w : arrays64) :
  (dx =? 0)%float = true ->
  np_exp 0%float = 1%float ->
  (power2 dx =? 0)%float = true ->
  sweep64 np_exp power2 (pre ++ dx :: post) w =
  (Return tt,
   {| bd_errors64 :=
        map (bd_error64 np_exp) pre ++ nan :: map (bd_error64 np_exp) post;
      fd_errors64 :=
        map (fd_error64 np_exp) pre ++ nan :: map (fd_error64 np_exp) post;
      cd1_errors64 :=
        map (cd1_error64 np_exp) pre
        ++ nan :: map (cd1_error64 np_exp) post;
      cd2_errors64 :=
        map (cd2_error64 np_exp power2) pre
        ++ nan :: map (cd2_error64 np_exp power2) post |}).
Proof.
  intros Hdx Hexp Hsq.
  destruct (errors64_at_zero dx Hdx Hexp Hsq) as (Hb & Hf & H1 & H2).
  unfold sweep64.
  pose proof (sweep64_loop_from (pre ++ dx :: post) [] [] [] [] 0
                eq_refl eq_refl eq_refl eq_refl) as Hrun.
  cbn [app] in Hrun. rewrite Hrun, !map_app. cbn [map]. rewrite Hb, Hf, H1, H2.
  reflexivity.
Qed.

End Sweep64Results.

(** * Worked instances *)

(** Forward difference of [t * t] at [1] with spacing [2]. *)
Lemma forward_differencing_formula_witness :
  (0 < 2)%R /\
  forward_differencing (E := unit) (pure_fn (fun t : R => t * t)%R) 1%R 2%R tt
  = (Return (((1 + 2) * (1 + 2) - 1 * 1) / 2)%R, tt).
Proof.
  split; [lra | ].
  apply (@forward_differencing_formula unit unit (fun t => t * t)%R 1%R 2%R tt).
  lra.
Defined.

(** Backward difference of [t * t] at [1] with spacing [2]. *)
Lemma backward_differencing_formula_witness :
  (0 < 2)%R /\
  backward_differencing (E := unit) (pure_fn (fun t : R => t * t)%R) 1%R 2%R tt
  = (Return ((1 * 1 - (1 - 2) * (1 - 2)) / 2)%R, tt).
Proof.
  split; [lra | ].
  apply (@backward_differencing_formula unit unit (fun t => t * t)%R 1%R 2%R tt).
  lra.
Defined.

(** Central differences of [t * t] at [1] with spacing [2], over the reals
    and on Python's floats. *)
Lemma central_differencing_in_range_witness :
  (0 < 2)%R /\
  (2 * 2 =? 0)%float = false /\ (2 * 2 =? 0)%float = false /\
  non_finite (2 * 2)%float = false /\
  central_differencing (E := unit) (pure_fn (fun t : R => t * t)%R) 1%R 2%R tt
  = (Return (((1 + 2) * (1 + 2) - (1 - 2) * (1 - 2)) / (2 * 2),
             ((1 - 2) * (1 - 2) - 2 * (1 * 1) + (1 + 2) * (1 + 2)) / 2 ^ 2)%R,
     tt) /\
  @central_differencing float (Binary64 (fun d => d * d)%float true)
    unit unit (pure_fn (fun v => v * v)%float) 1%float 2%float tt
  = (Return (2, 2)%float, tt).
Proof.
  split; [lra | ]. do 3 (split; [vm_compute; reflexivity | ]).
  destruct (@central_differencing_in_range unit unit (fun t => t * t)%R
              1%R 2%R (fun d => d * d)%float (fun v => v * v)%float true
              1%float 2%float tt)
    as [Hreal Hfloat]; [lra | vm_compute; reflexivity ..| ].
  split; [exact Hreal | ]. rewrite Hfloat. vm_compute. reflexivity.
Defined.

(** Central differences of [t * t] at [1] with spacings [-2] and [2]. *)
Lemma central_differencing_negated_spacing_witness :
  (2 <> 0)%R /\
  central_differencing (E := unit) (pure_fn (fun t : R => t * t)%R) 1%R (- 2)%R tt
  = central_differencing (E := unit) (pure_fn (fun t : R => t * t)%R) 1%R 2%R tt.
Proof.
  split; [lra | ].
  apply (@central_differencing_negated_spacing
           unit unit (fun t => t * t)%R 1%R 2%R tt).
  lra.
Defined.

(** Forward difference of [t * t] at [1] and backward difference at [3],
    with spacing [2]. *)
Lemma forward_is_shifted_backward_witness :
  (2 <> 0)%R /\
  forward_differencing (E := unit) (pure_fn (fun t : R => t * t)%R) 1%R 2%R tt
  = backward_differencing (E := unit) (pure_fn (fun t : R => t * t)%R)
      (1 + 2)%R 2%R tt.
Proof.
  split; [lra | ].
  apply (@forward_is_shifted_backward unit unit (fun t => t * t)%R 1%R 2%R tt).
  lra.
Defined.


(** Self convergence on the approximations [7], [3] and [1]. *)
Lemma self_convergence_formula_witness :
  (3 - 1 <> 0)%R /\ (7 - 3 <> 0)%R /\
  self_convergence (E := unit) 7%R 3%R 1%R tt
  = (Return (ln (Rabs ((7 - 3) / (3 - 1))) / ln 2)%R, tt).
Proof.
  split; [lra | split; [lra | ]].
  apply (@self_convergence_formula unit unit 7%R 3%R 1%R tt); lra.
Defined.

(** A zero spacing, for [t * t] at [1] over the reals and for [v] at [0]
    on binary64. *)
Lemma zero_spacing_unguarded_witness :
  (0 =? 0)%float = true /\
  backward_differencing (E := unit) (pure_fn (fun t : R => t * t)%R) 1%R 0%R tt
  = (Raise ZeroDivisionError, tt) /\
  exists q,
    backward_differencing (E := unit) (pure_fn (fun v : float => v))
      0%float 0%float tt = (Return q, tt) /\
    non_finite q = true.
Proof.
  split; [reflexivity | ].
  destruct (@zero_spacing_unguarded unit unit (fun t => t * t)%R 1%R
              (fun v => v) 0%float 0%float tt eq_refl)
    as [[Hb _] [[q [Hq [_ Hn]]] _]].
  split; [exact Hb | ]. exists q. split; [exact Hq | exact Hn].
Defined.

(** [counted_sqrt] fails at [-1], the second point of the backward stencil
    of [0] with spacing [1], the second point of the forward stencil of
    [-2] and the second point of the central stencil of [0]. *)
Lemma stencil_failure_propagates_witness :
  (evaluate counted_sqrt (backward_stencil 0%float 1%float) 0
   = (Raise (Raised ValueError), 2) /\
   backward_differencing counted_sqrt 0%float 1%float 0
   = (Raise (Raised ValueError), 2)) /\
  (evaluate counted_sqrt (forward_stencil (-2)%float 1%float) 0
   = (Raise (Raised ValueError), 1) /\
   forward_differencing counted_sqrt (-2)%float 1%float 0
   = (Raise (Raised ValueError), 1)) /\
  (evaluate counted_sqrt (central_stencil 0%float 1%float) 0
   = (Raise (Raised ValueError), 2) /\
   central_differencing counted_sqrt 0%float 1%float 0
   = (Raise (Raised ValueError), 2)).
Proof.
  split; [ | split]; (split; [vm_compute; reflexivity | ]).
  - apply (proj1 (stencil_failure_propagates counted_sqrt
                    0%float 1%float 0 2 (Raised ValueError))).
    vm_compute; reflexivity.
  - apply (proj1 (proj2 (stencil_failure_propagates counted_sqrt
                           (-2)%float 1%float 0 1 (Raised ValueError)))).
    vm_compute; reflexivity.
  - apply (proj2 (proj2 (stencil_failure_propagates counted_sqrt
                           0%float 1%float 0 2 (Raised ValueError)))).
    vm_compute; reflexivity.
Defined.

Lemma counted_sqrt_deterministic : deterministic counted_sqrt.
Proof.
  intros v calls1 calls2. unfold counted_sqrt, value.
  destruct (v <? 0)%float; reflexivity.
Defined.

(** [counted_sqrt] at [4] with spacing [1], called first with the counter
    at [0] and again with the counter at [7]. *)
Lemma differencing_deterministic_witness :
  deterministic counted_sqrt /\
  value (backward_differencing counted_sqrt 4%float 1%float 0)
  = value (backward_differencing counted_sqrt 4%float 1%float 7) /\
  value (forward_differencing counted_sqrt 4%float 1%float 0)
  = value (forward_differencing counted_sqrt 4%float 1%float 7) /\
  value (central_differencing counted_sqrt 4%float 1%float 0)
  = value (central_differencing counted_sqrt 4%float 1%float 7).
Proof.
  split; [exact counted_sqrt_deterministic | ].
  apply (@differencing_deterministic float _ nat failure counted_sqrt
           4%float 1%float 0 7 counted_sqrt_deterministic).
Defined.

(** * Worked instances of the further properties *)


Lemma backward_is_mirrored_forward_witness :
  (2 <> 0)%R /\
  backward_differencing (E := unit) (pure_fn (fun t : R => t * t)%R) 1%R 2%R tt
  = forward_differencing (E := unit) (pure_fn (fun t : R => t * t)%R)
      1%R (- 2)%R tt.
Proof.
  split; [lra | ].
  apply (@backward_is_mirrored_forward unit unit (fun t => t * t)%R
           1%R 2%R tt).
  lra.
Defined.

Lemma central_from_one_sided_witness :
  central_differencing (E := unit) (pure_fn (fun t : R => t * t)%R) 1%R 2%R tt
  = (Return ((((1 + 2) * (1 + 2) - 1 * 1) / 2
              + (1 * 1 - (1 - 2) * (1 - 2)) / 2) / 2,
             (((1 + 2) * (1 + 2) - 1 * 1) / 2
              - (1 * 1 - (1 - 2) * (1 - 2)) / 2) / 2)%R, tt).
Proof.
  apply (@central_from_one_sided unit unit (fun t => t * t)%R 1%R 2%R
           (((1 + 2) * (1 + 2) - 1 * 1) / 2)%R
           ((1 * 1 - (1 - 2) * (1 - 2)) / 2)%R tt).
  - apply (@forward_differencing_nonzero unit unit (fun t => t * t)%R). lra.
  - apply (@backward_differencing_nonzero unit unit (fun t => t * t)%R). lra.
Defined.

Lemma differencing_linear_witness :
  backward_differencing (E := unit)
    (pure_fn (fun t : R => 3 * t + 5 * (t * t))%R) 1%R 2%R tt
  = (Return (3 * ((1 - (1 - 2)) / 2)
             + 5 * ((1 * 1 - (1 - 2) * (1 - 2)) / 2))%R, tt).
Proof.
  refine (proj1 (@differencing_linear unit unit (fun t => t)%R
                   (fun t => t * t)%R 3%R 5%R 1%R 2%R tt _
                   _ _ _ _ _ _ _ _ _ _ _ _ _ _)).
  - lra.
  - apply (@backward_differencing_nonzero unit unit (fun t => t)%R). lra.
  - apply (@backward_differencing_nonzero unit unit (fun t => t * t)%R). lra.
  - apply (@forward_differencing_nonzero unit unit (fun t => t)%R). lra.
  - apply (@forward_differencing_nonzero unit unit (fun t => t * t)%R). lra.
  - apply (@central_differencing_nonzero unit unit (fun t => t)%R). lra.
  - apply (@central_differencing_nonzero unit unit (fun t => t * t)%R). lra.
Defined.

Lemma one_sided_on_quadratic_witness :
  (2 <> 0)%R /\
  forward_differencing (E := unit) (pure_fn (quartic 0 0 3 5 7)) 1%R 2%R tt
  = (Return (2 * 3 * 1 + 5 + 3 * 2)%R, tt).
Proof.
  split; [lra | ].
  apply (proj1 (@one_sided_on_quadratic unit unit 3%R 5%R 7%R 1%R 2%R tt
                  ltac:(lra))).
Defined.

Lemma central_on_quartic_witness :
  (2 <> 0)%R /\
  exists estimates,
    central_differencing (E := unit) (pure_fn (quartic 1 2 3 5 7)) 1%R 2%R tt
    = (Return estimates, tt).
Proof.
  split; [lra | ]. eexists.
  apply (@central_on_quartic unit unit 1%R 2%R 3%R 5%R 7%R 1%R 2%R tt).
  lra.
Defined.

Lemma differencing_mean_value_witness :
  exists c, (0 < c < 0 + 1)%R /\
    forward_differencing (E := unit) (pure_fn exp) 0%R 1%R tt
    = (Return (exp c), tt).
Proof.
  apply (proj1 (@differencing_mean_value unit unit exp exp 0%R 1%R tt
                  ltac:(lra)
                  (fun c _ => derivable_pt_lim_exp c))).
Defined.

Lemma differencing_consistent_witness :
  exists delta, (0 < delta)%R /\
    forall dx, dx <> 0%R -> (Rabs dx < delta)%R ->
      exists fd bd cd1 cd2,
        forward_differencing (E := unit) (pure_fn exp) 0%R dx tt
        = (Return fd, tt) /\
        backward_differencing (E := unit) (pure_fn exp) 0%R dx tt
        = (Return bd, tt) /\
        central_differencing (E := unit) (pure_fn exp) 0%R dx tt
        = (Return (cd1, cd2), tt) /\
        (Rabs (fd - exp 0) < 1 /\ Rabs (bd - exp 0) < 1 /\
         Rabs (cd1 - exp 0) < 1)%R.
Proof.
  apply (@differencing_consistent unit unit exp 0%R (exp 0) 1%R tt
           (derivable_pt_lim_exp 0%R)).
  lra.
Defined.

Lemma central_second_mean_value_witness :
  exists c first_derivative, (0 - 1 < c < 0 + 1)%R /\
    central_differencing (E := unit) (pure_fn exp) 0%R 1%R tt
    = (Return (first_derivative, exp c), tt).
Proof.
  apply (@central_second_mean_value unit unit exp exp exp 0%R 1%R tt
           ltac:(lra)
           (fun c _ => derivable_pt_lim_exp c)
           (fun c _ => derivable_pt_lim_exp c)).
Defined.

Lemma exp_one_sided_errors_witness :
  (0 < 1 / 2 <= 1)%R /\
  exists bd fd,
    backward_differencing (E := unit) (pure_fn exp) 0%R (1 / 2)%R tt
    = (Return bd, tt) /\
    forward_differencing (E := unit) (pure_fn exp) 0%R (1 / 2)%R tt
    = (Return fd, tt) /\
    (1 - 1 / 2 <= bd <= 1 /\ 1 <= fd <= 1 + 3 * (1 / 2))%R.
Proof.
  split; [lra | ].
  apply (@exp_one_sided_errors unit unit (1 / 2)%R tt). lra.
Defined.

Lemma exp_central_errors_witness :
  (0 < 1 / 2 <= 1)%R /\
  exists cd1 cd2,
    central_differencing (E := unit) (pure_fn exp) 0%R (1 / 2)%R tt
    = (Return (cd1, cd2), tt) /\
    (1 <= cd1 <= 1 + 2 * (1 / 2) ^ 2 /\ 1 <= cd2 <= 1 + 4 * (1 / 2) ^ 2)%R.
Proof.
  split; [lra | ].
  apply (@exp_central_errors unit unit (1 / 2)%R tt). lra.
Defined.

(** Arrays left by an earlier run, and two spacings. *)
Lemma sweep_fills_arrays_witness :
  sweep [1 / 10; 1]%R
    {| bd_errors := [7]%R; fd_errors := []; cd1_errors := [];
       cd2_errors := [] |} =
  (Return tt,
   {| bd_errors := map bd_error [1 / 10; 1]%R;
      fd_errors := map fd_error [1 / 10; 1]%R;
      cd1_errors := map cd1_error [1 / 10; 1]%R;
      cd2_errors := map cd2_error [1 / 10; 1]%R |}).
Proof.
  apply (sweep_fills_arrays [1 / 10; 1]%R).
  repeat constructor; lra.
Defined.

(** The forward and backward differences of [t^2] at [0], at the spacings
    [4], [2] and [1]. *)
Lemma one_sided_self_convergence_witness :
  self_convergence (E := unit)
    (2 * 1 * 0 + 0 + 1 * (4 * 1))%R (2 * 1 * 0 + 0 + 1 * (2 * 1))%R
    (2 * 1 * 0 + 0 + 1 * 1)%R tt = (Return 1%R, tt).
Proof.
  refine (proj1 (@one_sided_self_convergence unit unit 1%R 0%R 0%R 0%R 1%R tt
                   _ _ _ _ _ _ _ _ _ _ _ _ _ _)).
  - lra.
  - lra.
  - apply (@forward_differencing_quadratic unit unit). lra.
  - apply (@forward_differencing_quadratic unit unit). lra.
  - apply (@forward_differencing_quadratic unit unit). lra.
  - apply (@backward_differencing_quadratic unit unit). lra.
  - apply (@backward_differencing_quadratic unit unit). lra.
  - apply (@backward_differencing_quadratic unit unit). lra.
Defined.

(** The central estimates of [t^4 + t^3] at [0], at the spacings [4], [2]
    and [1]. *)
Lemma central_self_convergence_witness :
  exists F4 F2 F1 S4 S2 S1,
    central_differencing (E := unit) (pure_fn (quartic 1 1 0 0 0))
      0%R (4 * 1)%R tt = (Return (F4, S4), tt) /\
    central_differencing (E := unit) (pure_fn (quartic 1 1 0 0 0))
      0%R (2 * 1)%R tt = (Return (F2, S2), tt) /\
    central_differencing (E := unit) (pure_fn (quartic 1 1 0 0 0))
      0%R 1%R tt = (Return (F1, S1), tt) /\
    self_convergence (E := unit) F4 F2 F1 tt = (Return 2%R, tt) /\
    self_convergence (E := unit) S4 S2 S1 tt = (Return 2%R, tt).
Proof.
  do 6 eexists.
  assert (H4 := @central_differencing_quartic unit unit
                  1%R 1%R 0%R 0%R 0%R 0%R (4 * 1)%R tt ltac:(lra)).
  assert (H2 := @central_differencing_quartic unit unit
                  1%R 1%R 0%R 0%R 0%R 0%R (2 * 1)%R tt ltac:(lra)).
  assert (H1 := @central_differencing_quartic unit unit
                  1%R 1%R 0%R 0%R 0%R 0%R 1%R tt ltac:(lra)).
  split; [exact H4 | split; [exact H2 | split; [exact H1 | ]]].
  apply (@central_self_convergence unit unit 1%R 1%R 0%R 0%R 0%R 0%R 1%R tt
           ltac:(lra) ltac:(lra) ltac:(lra) _ _ _ _ _ _ H4 H2 H1).
Defined.

(** The backward difference of [v * v + 1] at [3.0] with spacing [0.0]. *)
Lemma backward_zero_spacing_nan_witness :
  non_finite (3 * 3 + 1)%float = false /\
  backward_differencing (E := unit) (pure_fn (fun v => v * v + 1)%float)
    3%float 0%float tt = (Return nan, tt).
Proof.
  split; [vm_compute; reflexivity | ].
  apply (@backward_zero_spacing_nan unit unit (fun v => v * v + 1)%float
           3%float tt).
  vm_compute; reflexivity.
Defined.

(** The forward difference of [v * v] at [2^53] with spacing [1.0]. *)
Lemma absorbed_spacing_forward_zero_witness :
  (9007199254740992 + 1)%float = 9007199254740992%float /\
  exists q,
    forward_differencing (E := unit) (pure_fn (fun v => v * v)%float)
      9007199254740992%float 1%float tt = (Return q, tt) /\
    (q =? 0)%float = true.
Proof.
  split; [vm_compute; reflexivity | ].
  apply (@absorbed_spacing_forward_zero unit unit (fun v => v * v)%float
           9007199254740992%float 1%float tt);
    vm_compute; reflexivity.
Defined.

(** The central estimates of [v * v] at [1.0] with spacing [2^-600]. *)
Lemma underflowing_spacing_second_estimate_witness :
  (0x1p-600 * 0x1p-600 =? 0)%float = true /\
  exists q1 q2,
    central_differencing (E := unit) (pure_fn (fun v => v * v)%float)
      1%float 0x1p-600%float tt = (Return (q1, q2), tt) /\
    non_finite q2 = true.
Proof.
  split; [vm_compute; reflexivity | ].
  apply (@underflowing_spacing_second_estimate unit unit
           (fun v => v * v)%float 1%float 0x1p-600%float tt).
  vm_compute; reflexivity.
Defined.

(** The sweep on numpy scalars over the spacings [1.0], [0.0] and [0.5],
    with [v * v + 1] for [exp] and the rounded product for [pow]. *)
Lemma sweep64_zero_spacing_witness :
  (0 =? 0)%float = true /\
  (0 * 0 + 1)%float = 1%float /\
  (0 * 0 =? 0)%float = true /\
  exists a,
    sweep64 (fun v => v * v + 1)%float (fun d => d * d)%float
      ([1] ++ 0 :: [0.5])%float
      {| bd_errors64 := []; fd_errors64 := []; cd1_errors64 := [];
         cd2_errors64 := [] |} = (Return tt, a) /\
    nth 1 (bd_errors64 a) 0%float = nan /\
    nth 1 (fd_errors64 a) 0%float = nan /\
    nth 1 (cd1_errors64 a) 0%float = nan /\
    nth 1 (cd2_errors64 a) 0%float = nan.
Proof.
  do 3 (split; [vm_compute; reflexivity | ]).
  eexists. split.
  - apply (sweep64_zero_spacing (fun v => v * v + 1)%float
             (fun d => d * d)%float [1%float] [0.5%float] 0%float);
      vm_compute; reflexivity.
  - cbn. repeat split; reflexivity.
Defined.
